(** * MineSweeper: the board model of [minesweeper.py]

    A shallow embedding of class [MineSweeper] (the data structure and the
    rules of the game) and of class [MineSweeperGUI] (the buttons, the
    title and the right-click handler), followed by the properties of the
    board that the specification states and by further properties of the
    board and of the window.

    Python sets are [gset]s, dicts are [gmap]s, ints are [Z]; the float
    [mines_density] (the command line reads it with [type="float"]) is an
    IEEE 754 binary64 value, [spec_float] with precision 53 and maximal
    exponent 1024.  An exception is a value of [result]; a method that
    mutates the object before raising returns the mutated object next to
    the exception.  The randomness of [random.randrange] is a tape of
    integers that [__init__] takes as an argument. *)

From Stdlib Require Import ZArith Bool Lia.
From Stdlib Require Import Floats.SpecFloat.
From stdpp Require Import gmap fin_sets list.
From stdpp Require Import strings pretty.

Local Open Scope Z_scope.

(** ** Exceptions *)

Inductive exn := KeyError | ValueError | OverflowError.

Inductive result (A : Type) :=
  | Ok (a : A)
  | Raise (e : exn).
Arguments Ok {A} a.
Arguments Raise {A} e.

#[global] Instance result_ret : MRet result := λ A a, Ok a.
#[global] Instance result_bind : MBind result := λ A B k m,
  match m with
  | Ok a => k a
  | Raise e => Raise e
  end.

(** ** Python floats: [float * int] and [int(float)] *)

Module Float64.

Definition prec : Z := 53.
Definition emax : Z := 1024.

Definition zero : spec_float := S754_zero false.
Definition one : spec_float := S754_finite false 4503599627370496 (-52).

(** [float(z)]: the nearest double, ties to even; an int beyond the range
    of doubles raises [OverflowError]. *)
Definition of_int (z : Z) : result spec_float :=
  match binary_normalize prec emax z 0 false with
  | S754_infinity _ => Raise OverflowError
  | f => Ok f
  end.

Definition mul (x y : spec_float) : spec_float := SFmul prec emax x y.

(** [x * n] for a float [x] and an int [n]: [n] is converted first. *)
Definition mul_int (x : spec_float) (n : Z) : result spec_float :=
  f ← of_int n; Ok (mul x f).

(** [int(x)]: truncation toward zero. *)
Definition to_int (x : spec_float) : result Z :=
  match x with
  | S754_zero _ => Ok 0
  | S754_finite s m e => Ok (cond_Zopp s (Z.shiftl (Z.pos m) e))
  | S754_infinity _ => Raise OverflowError
  | S754_nan => Raise ValueError
  end.

Definition leb (x y : spec_float) : bool := SFleb x y.


End Float64.

(** ** The board *)

Abbreviation coord := (Z * Z)%type.

(** What [mines_near[xy]] holds: a number, or the string ['mine']. *)
Inductive near := Count (n : Z) | Mine.

(** The texts given to [message]. *)
Inductive message :=
  | YouDied                        (* "YOU DIED; game is *not* over!" *)
  | WonAfterDying (died : nat)     (* "You won, after dying only %s times." *)
  | AliveAndVictorious.            (* "You are ALIVE AND VICTORIOUS :-)" *)

Record MineSweeper := mkMineSweeper {
  columns : Z;
  rows : Z;
  xys : gset coord;
  neighbours : gmap coord (gset coord);
  _mines : gset coord;
  empty_remaining : Z;
  opened : gset coord;
  flagged : gset coord;
  mines_near : gmap coord near
}.

(** *** [__init__] *)

(** [range(n)] *)
Definition range (n : Z) : list Z := seqZ 0 n.

(** [(x, y) for x in range(columns) for y in range(rows)] *)
Definition board_cells (columns rows : Z) : list coord :=
  x ← range columns; y ← range rows; [(x, y)].

(** The 3x3 area around [(x, y)], centre included. *)
Definition area (xy : coord) : list coord :=
  nx ← [xy.1 - 1; xy.1; xy.1 + 1]; ny ← [xy.2 - 1; xy.2; xy.2 + 1]; [(nx, ny)].

(** The set comprehension of lines 74-81. *)
Definition neighbours_of (xys : gset coord) (xy : coord) : gset coord :=
  list_to_set (filter (λ n, n ≠ xy ∧ n ∈ xys) (area xy)).

(** The loop of lines 72-81: one entry per square of the board. *)
Definition build_neighbours (xys : gset coord) : gmap coord (gset coord) :=
  set_to_map (λ xy, (xy, neighbours_of xys xy)) xys.

(** [mines_density * columns * rows], evaluated from left to right *)
Definition density_product (mines_density : spec_float) (columns rows : Z)
  : result spec_float :=
  p ← Float64.mul_int mines_density columns;
  Float64.mul_int p rows.

(** [int(mines_density * columns * rows)] *)
Definition mines_number_of (mines_density : spec_float) (columns rows : Z)
  : result Z :=
  q ← density_product mines_density columns rows;
  Float64.to_int q.

(** [random.randrange(n)].  The generator is a tape of raw integers, one
    read per call; the call maps the raw integer into [range(n)], so that
    every element of [range(n)] can be returned and nothing else.  A
    non-positive [n] raises [ValueError] (empty range). *)
Definition randrange (n : Z) (raw : Z) : result Z :=
  if decide (n ≤ 0) then Raise ValueError else Ok (raw `mod` n).

(** The [while] loop of lines 87-89.  Each round reads one pair of raw
    integers; [None] means that the tape ended while the loop was still
    running. *)
Fixpoint place_mines (columns rows mines_number : Z)
    (mines : gset coord) (tape : list (Z * Z)) : option (result (gset coord)) :=
  if decide (Z.of_nat (size mines) < mines_number) then
    match tape with
    | [] => None
    | (rx, ry) :: tape' =>
        match randrange columns rx with
        | Raise e => Some (Raise e)
        | Ok x =>
            match randrange rows ry with
            | Raise e => Some (Raise e)
            | Ok y =>
                place_mines columns rows mines_number ({[ (x, y) ]} ∪ mines) tape'
            end
        end
    end
  else Some (Ok mines).

Definition init (tape : list (Z * Z)) (columns rows : Z)
    (mines_density : spec_float) : option (result MineSweeper) :=
  let xys : gset coord := list_to_set (board_cells columns rows) in
  let neighbours := build_neighbours xys in
  match mines_number_of mines_density columns rows with
  | Raise e => Some (Raise e)
  | Ok mines_number =>
      match place_mines columns rows mines_number ∅ tape with
      | None => None
      | Some (Raise e) => Some (Raise e)
      | Some (Ok mines) =>
          Some (Ok {| columns := columns;
                      rows := rows;
                      xys := xys;
                      neighbours := neighbours;
                      _mines := mines;
                      empty_remaining := columns * rows - mines_number;
                      opened := ∅;
                      flagged := ∅;
                      mines_near := ∅ |})
      end
  end.

(** *** Field updates *)

Definition set_opened (b : MineSweeper) (s : gset coord) : MineSweeper :=
  {| columns := columns b; rows := rows b; xys := xys b;
     neighbours := neighbours b; _mines := _mines b;
     empty_remaining := empty_remaining b; opened := s;
     flagged := flagged b; mines_near := mines_near b |}.

Definition set_flagged (b : MineSweeper) (s : gset coord) : MineSweeper :=
  {| columns := columns b; rows := rows b; xys := xys b;
     neighbours := neighbours b; _mines := _mines b;
     empty_remaining := empty_remaining b; opened := opened b;
     flagged := s; mines_near := mines_near b |}.

Definition set_mines_near (b : MineSweeper) (m : gmap coord near) : MineSweeper :=
  {| columns := columns b; rows := rows b; xys := xys b;
     neighbours := neighbours b; _mines := _mines b;
     empty_remaining := empty_remaining b; opened := opened b;
     flagged := flagged b; mines_near := m |}.

Definition set_empty_remaining (b : MineSweeper) (n : Z) : MineSweeper :=
  {| columns := columns b; rows := rows b; xys := xys b;
     neighbours := neighbours b; _mines := _mines b;
     empty_remaining := n; opened := opened b;
     flagged := flagged b; mines_near := mines_near b |}.

(** *** [flag], [win], [lose], [open] *)

Definition flag (b : MineSweeper) (xy : coord) : MineSweeper :=
  set_flagged b ({[ xy ]} ∪ flagged b).

Definition win (b : MineSweeper) : message :=
  let died := size (opened b ∩ _mines b) in
  if decide (died = 0%nat) then AliveAndVictorious else WonAfterDying died.

Definition lose (b : MineSweeper) : message := YouDied.

(** [open] returns the board as the call leaves it and either the messages
    shown (at most one) or the exception that escaped. *)
Definition open (b : MineSweeper) (xy : coord)
  : MineSweeper * result (list message) :=
  if decide (xy ∈ opened b) then (b, Ok [])
  else
    let b := set_opened b ({[ xy ]} ∪ opened b) in
    if decide (xy ∈ _mines b) then
      let b := set_mines_near b (<[xy := Mine]> (mines_near b)) in
      let b := flag b xy in
      (b, Ok [lose b])
    else
      match neighbours b !! xy with
      | None => (b, Raise KeyError)
      | Some ns =>
          let b := set_mines_near b
                     (<[xy := Count (Z.of_nat (size (ns ∩ _mines b)))]>
                        (mines_near b)) in
          let b := set_flagged b (flagged b ∖ {[ xy ]}) in
          let b := set_empty_remaining b (empty_remaining b - 1) in
          if decide (empty_remaining b ≤ 0) then (b, Ok [win b])
          else (b, Ok [])
      end.

(** *** The right-click handler of [MineSweeperGUI]

    [right_clicked] is bound to the button of a square of the board.  The
    redrawing ([refresh]) reads the board and writes only widgets, so what
    is kept here is what the handler does to the board. *)

Definition right_clicked (b : MineSweeper) (xy : coord) : MineSweeper :=
  if decide (xy ∉ flagged b) then flag b xy
  else if decide (xy ∈ opened b ∧ xy ∈ _mines b) then b
  else set_flagged b (flagged b ∖ {[ xy ]}).

(** ** Sequences of calls

    [Open] and [Flag] are the methods of [MineSweeper]; [RightClick] is
    what the handler of [MineSweeperGUI] does to the board. *)

Inductive call := Open (xy : coord) | Flag (xy : coord) | RightClick (xy : coord).

Definition target (c : call) : coord :=
  match c with Open xy | Flag xy | RightClick xy => xy end.

Definition step (b : MineSweeper) (c : call)
  : MineSweeper * result (list message) :=
  match c with
  | Open xy => open b xy
  | Flag xy => (flag b xy, Ok [])
  | RightClick xy => (right_clicked b xy, Ok [])
  end.

(** The board after a sequence of calls; a caller that catches an exception
    goes on with the board as the failed call left it. *)
Definition run (b : MineSweeper) (cs : list call) : MineSweeper :=
  foldl (λ b c, (step b c).1) b cs.

(** What each call of the sequence returned, in order. *)
Fixpoint trace (b : MineSweeper) (cs : list call) : list (result (list message)) :=
  match cs with
  | [] => []
  | c :: cs => (step b c).2 :: trace (step b c).1 cs
  end.

Definition is_win (m : message) : bool :=
  match m with
  | YouDied => false
  | WonAfterDying _ | AliveAndVictorious => true
  end.

Definition is_loss (m : message) : bool :=
  match m with
  | YouDied => true
  | _ => false
  end.

Definition signals (p : message → bool) (r : result (list message)) : bool :=
  match r with
  | Ok ms => existsb p ms
  | Raise _ => false
  end.

Definition in_bounds (b : MineSweeper) (xy : coord) : Prop :=
  0 ≤ xy.1 < columns b ∧ 0 ≤ xy.2 < rows b.

#[global] Instance in_bounds_dec b xy : Decision (in_bounds b xy).
Proof. unfold in_bounds. apply _. Defined.

(** Chebyshev distance between two squares. *)
Definition chebyshev (p q : coord) : Z :=
  Z.abs (p.1 - q.1) `max` Z.abs (p.2 - q.2).

(** ** The GUI wrapper: class [MineSweeperGUI]

    Of the Tk widgets the model keeps what the class writes and reads: the
    options [text], [fg], [bg] and [relief] of the button of each square,
    and the title of the window.  A new button and its options, as Tk makes
    it, are an argument of the constructor. *)

Record button := mkButton {
  b_text : string;
  b_fg : string;
  b_bg : string;
  b_relief : string
}.

(** What the window title last received. *)
Inductive title :=
  | TkTitle                     (* as [Tk.Tk()] made it *)
  | Shown (m : message)         (* a text of [win] or [lose] *)
  | LeftToOpen (n : Z).         (* "%d non-mines left to open" *)

Record MineSweeperGUI := mkGUI {
  board : MineSweeper;
  squares : gmap coord button;
  window_title : title;
  _default_button_bg : option string   (* [None]: the attribute is not set *)
}.

Inductive gui_exn :=
  | Py (e : exn)
  | AttributeError
  | TypeError.

Inductive gui_result (A : Type) :=
  | Fine (a : A)
  | Broke (e : gui_exn).
Arguments Fine {A} a.
Arguments Broke {A} e.

Definition set_board (g : MineSweeperGUI) (b : MineSweeper) : MineSweeperGUI :=
  {| board := b; squares := squares g; window_title := window_title g;
     _default_button_bg := _default_button_bg g |}.

Definition set_squares (g : MineSweeperGUI) (m : gmap coord button)
  : MineSweeperGUI :=
  {| board := board g; squares := m; window_title := window_title g;
     _default_button_bg := _default_button_bg g |}.

Definition set_default_button_bg (g : MineSweeperGUI) (bg : string)
  : MineSweeperGUI :=
  {| board := board g; squares := squares g; window_title := window_title g;
     _default_button_bg := Some bg |}.

(** [message]: [self.window.title(string)] *)
Definition gui_message (g : MineSweeperGUI) (t : title) : MineSweeperGUI :=
  {| board := board g; squares := squares g; window_title := t;
     _default_button_bg := _default_button_bg g |}.

(** The texts on the buttons, as UTF-8. *)
Definition SKULL_AND_CROSSBONES : string := "☠".
Definition BLACK_FLAG : string := "⚑".
Definition WHITE_FLAG : string := "⚐".

(** [{1: 'blue', ...}.get(mn, 'black')] *)
Definition number_fg (mn : Z) : string :=
  if decide (mn = 1) then "blue"
  else if decide (mn = 2) then "dark green"
  else if decide (mn = 3) then "red"
  else if decide (mn = 4) then "dark blue"
  else if decide (mn = 5) then "dark red"
  else "black".

(** [text_fg_bg]: the text, the foreground ([None] as in the source) and
    the background of the button of [xy]. *)
Definition text_fg_bg (g : MineSweeperGUI) (xy : coord)
  : gui_result (string * option string * string) :=
  if decide (xy ∈ opened (board g)) then
    if decide (xy ∈ _mines (board g)) then
      Fine (SKULL_AND_CROSSBONES, None, "red")
    else
      match mines_near (board g) !! xy with
      | None => Broke (Py KeyError)
      | Some Mine => Broke TypeError          (* ['mine' > 0] *)
      | Some (Count mn) =>
          if decide (0 < mn) then Fine (pretty mn, Some (number_fg mn), "white")
          else Fine (" ", None, "white")
      end
  else if decide (0 < empty_remaining (board g)) then
    if decide (xy ∈ flagged (board g)) then Fine (BLACK_FLAG, None, "yellow")
    else
      match _default_button_bg g with
      | None => Broke AttributeError
      | Some bg => Fine (" ", None, bg)
      end
  else
    if decide (xy ∈ flagged (board g)) then Fine (WHITE_FLAG, None, "green")
    else Fine (" ", None, "green").

(** [button.config(text=text, fg=fg, bg=bg)]; Tk leaves an option whose
    value is [None] as it is. *)
Definition config (w : button) (text : string) (fg : option string)
    (bg : string) : button :=
  {| b_text := text; b_fg := default (b_fg w) fg; b_bg := bg;
     b_relief := b_relief w |}.

(** [button.config(relief=Tk.SUNKEN)] *)
Definition config_relief (w : button) (relief : string) : button :=
  {| b_text := b_text w; b_fg := b_fg w; b_bg := b_bg w;
     b_relief := relief |}.

Definition SUNKEN : string := "sunken".

(** [refresh] *)
Definition refresh (g : MineSweeperGUI) (xy : coord)
  : MineSweeperGUI * gui_result unit :=
  match squares g !! xy with
  | None => (g, Broke (Py KeyError))
  | Some w =>
      match text_fg_bg g xy with
      | Broke e => (g, Broke e)
      | Fine (text, fg, bg) =>
          let w := config w text fg bg in
          let w :=
            if decide (xy ∈ opened (board g)) then config_relief w SUNKEN
            else w in
          let g := set_squares g (<[xy := w]> (squares g)) in
          let g :=
            if decide (0 < empty_remaining (board g))
            then gui_message g (LeftToOpen (empty_remaining (board g)))
            else g in
          (g, Fine ())
      end
  end.

(** [refresh] on each square of a list, up to the first exception. *)
Fixpoint refresh_each (g : MineSweeperGUI) (l : list coord)
  : MineSweeperGUI * gui_result unit :=
  match l with
  | [] => (g, Fine ())
  | xy :: l =>
      match refresh g xy with
      | (g, Fine _) => refresh_each g l
      | (g, Broke e) => (g, Broke e)
      end
  end.

(** [MineSweeperGUI.flag] *)
Definition gui_flag (g : MineSweeperGUI) (xy : coord)
  : MineSweeperGUI * gui_result unit :=
  refresh (set_board g (flag (board g) xy)) xy.

(** [MineSweeperGUI.win]: the text of [MineSweeper.win] goes to the title,
    then the closed mines are redrawn. *)
Definition gui_win (g : MineSweeperGUI) : MineSweeperGUI * gui_result unit :=
  let g := gui_message g (Shown (win (board g))) in
  refresh_each g (elements (_mines (board g) ∖ opened (board g))).

(** [lose], with the [message] of the GUI *)
Definition gui_lose (g : MineSweeperGUI) : MineSweeperGUI :=
  gui_message g (Shown (lose (board g))).

(** [MineSweeper.open] run on a [MineSweeperGUI]: its calls of [flag],
    [win] and [lose] are those of the subclass. *)
Definition open_dispatched (g : MineSweeperGUI) (xy : coord)
  : MineSweeperGUI * gui_result unit :=
  if decide (xy ∈ opened (board g)) then (g, Fine ())
  else
    let g := set_board g (set_opened (board g) ({[ xy ]} ∪ opened (board g))) in
    if decide (xy ∈ _mines (board g)) then
      let g := set_board g (set_mines_near (board g)
                              (<[xy := Mine]> (mines_near (board g)))) in
      match gui_flag g xy with
      | (g, Broke e) => (g, Broke e)
      | (g, Fine _) => (gui_lose g, Fine ())
      end
    else
      match neighbours (board g) !! xy with
      | None => (g, Broke (Py KeyError))
      | Some ns =>
          let b := board g in
          let b := set_mines_near b
                     (<[xy := Count (Z.of_nat (size (ns ∩ _mines b)))]>
                        (mines_near b)) in
          let b := set_flagged b (flagged b ∖ {[ xy ]}) in
          let b := set_empty_remaining b (empty_remaining b - 1) in
          let g := set_board g b in
          if decide (empty_remaining b ≤ 0) then gui_win g
          else (g, Fine ())
      end.

(** [MineSweeperGUI.open] *)
Definition gui_open (g : MineSweeperGUI) (xy : coord)
  : MineSweeperGUI * gui_result unit :=
  match open_dispatched g xy with
  | (g, Broke e) => (g, Broke e)
  | (g, Fine _) => refresh g xy
  end.

(** The handler [right_clicked] of the button of [xy], in full. *)
Definition gui_right_clicked (g : MineSweeperGUI) (xy : coord)
  : MineSweeperGUI * gui_result unit :=
  if decide (xy ∉ flagged (board g)) then gui_flag g xy
  else if decide (xy ∈ opened (board g) ∧ xy ∈ _mines (board g))
  then (g, Fine ())
  else if decide (xy ∈ flagged (board g)) then   (* [set.remove] *)
    refresh (set_board g (set_flagged (board g) (flagged (board g) ∖ {[ xy ]}))) xy
  else (g, Broke (Py KeyError)).

(** The loop of [MineSweeperGUI.__init__] over the squares: a new button,
    [_default_button_bg] read from it, then [refresh]. *)
Fixpoint build_squares (tk_button : button) (g : MineSweeperGUI)
    (l : list coord) : MineSweeperGUI * gui_result unit :=
  match l with
  | [] => (g, Fine ())
  | xy :: l =>
      let g := set_squares g (<[xy := tk_button]> (squares g)) in
      let g := set_default_button_bg g (b_bg tk_button) in
      match refresh g xy with
      | (g, Fine _) => build_squares tk_button g l
      | (g, Broke e) => (g, Broke e)
      end
  end.

(** [MineSweeperGUI.__init__] *)
Definition gui_init (tk_button : button) (tape : list (Z * Z))
    (columns rows : Z) (mines_density : spec_float)
  : option (gui_result MineSweeperGUI) :=
  match init tape columns rows mines_density with
  | None => None
  | Some (Raise e) => Some (Broke (Py e))
  | Some (Ok b) =>
      let g := {| board := b; squares := ∅; window_title := TkTitle;
                  _default_button_bg := None |} in
      match build_squares tk_button g (elements (xys b)) with
      | (g, Fine _) => Some (Fine g)
      | (_, Broke e) => Some (Broke e)
      end
  end.

(** The calls that the player makes on the GUI. *)
Definition gui_step (g : MineSweeperGUI) (c : call)
  : MineSweeperGUI * gui_result unit :=
  match c with
  | Open xy => gui_open g xy
  | Flag xy => gui_flag g xy
  | RightClick xy => gui_right_clicked g xy
  end.

Definition gui_run (g : MineSweeperGUI) (cs : list call) : MineSweeperGUI :=
  foldl (λ g c, (gui_step g c).1) g cs.

(** ** Vocabulary of the properties *)

(** The eight squares around [(x, y)]. *)
Definition ring (xy : coord) : list coord :=
  [(xy.1 - 1, xy.2 - 1); (xy.1 - 1, xy.2); (xy.1 - 1, xy.2 + 1);
   (xy.1, xy.2 - 1); (xy.1, xy.2 + 1);
   (xy.1 + 1, xy.2 - 1); (xy.1 + 1, xy.2); (xy.1 + 1, xy.2 + 1)].

(** No negative finite or infinite value. *)
Definition not_negative (x : spec_float) : Prop :=
  match x with
  | S754_finite s _ _ | S754_infinity s => s = false
  | _ => True
  end.

(** Sign bit clear, whatever the class. *)
Definition sign_clear (x : spec_float) : Prop :=
  match x with
  | S754_finite s _ _ | S754_infinity s | S754_zero s => s = false
  | S754_nan => True
  end.

(** Sign bit equal to [s], whatever the class. *)
Definition has_sign (s : bool) (x : spec_float) : Prop :=
  match x with
  | S754_finite s' _ _ | S754_infinity s' | S754_zero s' => s' = s
  | S754_nan => True
  end.

(** What [open] publishes in [mines_near] for a square of the board. *)
Definition near_of (b : MineSweeper) (xy : coord) : near :=
  if decide (xy ∈ _mines b) then Mine
  else Count (Z.of_nat (size (neighbours_of (xys b) xy ∩ _mines b))).

(** The safe squares that are still closed. *)
Definition unopened_safe (b : MineSweeper) : gset coord :=
  (xys b ∖ _mines b) ∖ opened b.

(** Holds of every board that [__init__] returns, whatever its arguments,
    and is kept by every call, in bounds or not. *)
Record sound (b : MineSweeper) : Prop := {
  sound_xys : ∀ p, p ∈ xys b ↔ in_bounds b p;
  sound_neighbours : neighbours b = build_neighbours (xys b);
  sound_mines : _mines b ⊆ xys b;
  sound_near : ∀ p,
    mines_near b !! p =
      if decide (p ∈ opened b ∧ p ∈ xys b) then Some (near_of b p) else None;
  sound_dead : opened b ∩ _mines b ⊆ flagged b
}.

(** [empty_remaining] counts the closed safe squares. *)
Definition balanced (b : MineSweeper) : Prop :=
  empty_remaining b = Z.of_nat (size (unopened_safe b)).

(** Nothing outside the board has been opened or flagged. *)
Definition tidy (b : MineSweeper) : Prop :=
  opened b ⊆ xys b ∧ flagged b ⊆ xys b.

(** The fields that no method assigns. *)
Definition same_board (b b' : MineSweeper) : Prop :=
  columns b' = columns b ∧ rows b' = rows b ∧ xys b' = xys b
  ∧ neighbours b' = neighbours b ∧ _mines b' = _mines b.

(** The board after a safe square with neighbour set [ns] is opened. *)
Definition opened_safe (b : MineSweeper) (xy : coord) (ns : gset coord)
  : MineSweeper :=
  {| columns := columns b; rows := rows b; xys := xys b;
     neighbours := neighbours b; _mines := _mines b;
     empty_remaining := empty_remaining b - 1;
     opened := {[ xy ]} ∪ opened b;
     flagged := flagged b ∖ {[ xy ]};
     mines_near :=
       <[xy := Count (Z.of_nat (size (ns ∩ _mines b)))]> (mines_near b) |}.

(** [open] sorted by what the square is. *)
Variant open_case (b : MineSweeper) (xy : coord)
  : MineSweeper * result (list message) → Prop :=
  | OpenAgain :
      xy ∈ opened b → open_case b xy (b, Ok [])
  | OpenMine :
      xy ∉ opened b → xy ∈ _mines b → in_bounds b xy →
      open_case b xy
        (flag (set_mines_near (set_opened b ({[ xy ]} ∪ opened b))
                 (<[xy := Mine]> (mines_near b))) xy,
         Ok [YouDied])
  | OpenOutside :
      xy ∉ opened b → xy ∉ _mines b → ¬ in_bounds b xy →
      open_case b xy (set_opened b ({[ xy ]} ∪ opened b), Raise KeyError)
  | OpenSafe :
      xy ∉ opened b → xy ∉ _mines b → in_bounds b xy →
      open_case b xy
        (opened_safe b xy (neighbours_of (xys b) xy),
         Ok (if decide (empty_remaining b - 1 ≤ 0)
             then [win (opened_safe b xy (neighbours_of (xys b) xy))]
             else [])).

(** The squares that a call opens. *)
Definition opens (c : call) : gset coord :=
  match c with
  | Open xy => {[ xy ]}
  | _ => ∅
  end.

(** The number of results that carry a Win message. *)
Fixpoint wins (rs : list (result (list message))) : nat :=
  match rs with
  | [] => 0
  | r :: rs => (if signals is_win r then 1 else 0) + wins rs
  end.

(** How many of [x - 1], [x], [x + 1] lie in [range(n)], for [x] in
    [range(n)]. *)
Definition span (x n : Z) : Z :=
  1 + (if decide (0 < x) then 1 else 0) + (if decide (x < n - 1) then 1 else 0).


(** The number of results that carry a Loss message. *)
Fixpoint losses (rs : list (result (list message))) : nat :=
  match rs with
  | [] => 0
  | r :: rs => (if signals is_loss r then 1 else 0) + losses rs
  end.

(** A sequence of calls without its [flag] calls and right clicks. *)
Definition is_open (c : call) : bool :=
  match c with
  | Open _ => true
  | _ => false
  end.

Definition opens_only (cs : list call) : list call :=
  filter (λ c, is_open c = true) cs.

(** Equal but for the flags. *)
Definition same_but_flags (b b' : MineSweeper) : Prop :=
  same_board b b'
  ∧ empty_remaining b' = empty_remaining b
  ∧ opened b' = opened b
  ∧ mines_near b' = mines_near b.

(** The button [w] of [xy] shows what [text_fg_bg] gives for the board;
    [fg] is as [text_fg_bg] gives it when it gives one, and the relief of
    an opened square is sunken. *)
Definition up_to_date (g : MineSweeperGUI) (xy : coord) (w : button) : Prop :=
  ∃ (text : string) (fg : option string) (bg : string),
    text_fg_bg g xy = Fine (text, fg, bg)
    ∧ b_text w = text
    ∧ b_bg w = bg
    ∧ (∀ c, fg = Some c → b_fg w = c)
    ∧ (xy ∈ opened (board g) → b_relief w = SUNKEN).

(** Holds of every GUI that [MineSweeperGUI.__init__] returns and is kept
    by every call. *)
Record gui_sound (g : MineSweeperGUI) : Prop := {
  gui_sound_board : sound (board g);
  gui_sound_squares : dom (squares g) = xys (board g);
  gui_sound_bg : xys (board g) ≠ ∅ → is_Some (_default_button_bg g);
  gui_sound_count :
    Z.of_nat (size (unopened_safe (board g))) ≤ empty_remaining (board g)
    ∨ xys (board g) = ∅;
  gui_sound_shown :
    ∀ xy w, squares g !! xy = Some w → up_to_date g xy w
}.

(** [g'] is [g] with the buttons of the squares in [S] redrawn for the
    board of [g']. *)
Definition redrawn (S : gset coord) (g g' : MineSweeperGUI) : Prop :=
  board g' = board g
  ∧ _default_button_bg g' = _default_button_bg g
  ∧ dom (squares g') = dom (squares g)
  ∧ (∀ p w, p ∈ S → squares g' !! p = Some w → up_to_date g' p w)
  ∧ (∀ p, p ∉ S → squares g' !! p = squares g !! p).

(** The count is not below the number of closed safe squares, or the board
    has no square at all. *)
Definition counted (b : MineSweeper) : Prop :=
  Z.of_nat (size (unopened_safe b)) ≤ empty_remaining b ∨ xys b = ∅.

(** A button for each square of a sound board, and a default background as
    soon as there is a button. *)
Definition ready (g : MineSweeperGUI) : Prop :=
  sound (board g)
  ∧ dom (squares g) = xys (board g)
  ∧ (xys (board g) ≠ ∅ → is_Some (_default_button_bg g)).

(** The title that [MineSweeperGUI.open] leaves, given the title before,
    the count after and what [MineSweeper.open] shows. *)
Definition title_after_open (before : title) (remaining : Z)
    (shown : result (list message)) : title :=
  if decide (0 < remaining) then LeftToOpen remaining
  else match shown with
       | Ok [m] => Shown m
       | _ => before
       end.
(** The window as [MineSweeperGUI.__init__] leaves it on the board [b],
    when Tk's new buttons are [tk_button]: every square has a button with
    a blank text on the background of play, or on green when there is
    nothing to open. *)
Definition fresh_gui (tk_button : button) (b : MineSweeper) : MineSweeperGUI :=
  {| board := b;
     squares :=
       gset_to_gmap
         (config tk_button " " None
            (if decide (0 < empty_remaining b) then b_bg tk_button
             else "green"))
         (xys b);
     window_title :=
       if decide (xys b ≠ ∅ ∧ 0 < empty_remaining b)
       then LeftToOpen (empty_remaining b) else TkTitle;
     _default_button_bg :=
       if decide (xys b = ∅) then None else Some (b_bg tk_button) |}.

(** ** Boards used in the examples *)

(** A button with the options of a new Tk button. *)
Definition plain_button : button :=
  {| b_text := EmptyString; b_fg := "black"; b_bg := "grey85"; b_relief := "raised" |}.


(** The double nearest to 0.2, and the double -0.5. *)
Definition fifth : spec_float := S754_finite false 7205759403792794 (-55).
Definition minus_half : spec_float := S754_finite true 4503599627370496 (-53).

(** A board as [__init__] leaves it, given its size, mines and count. *)
Definition fresh (c r : Z) (mines : gset coord) (remaining : Z) : MineSweeper :=
  {| columns := c; rows := r;
     xys := list_to_set (board_cells c r);
     neighbours := build_neighbours (list_to_set (board_cells c r));
     _mines := mines;
     empty_remaining := remaining;
     opened := ∅; flagged := ∅; mines_near := ∅ |}.

(** 3x3, density 0.2, the generator returns 1 and 1: one mine, at (1,1). *)
Definition board_3x3 : MineSweeper := fresh 3 3 {[ (1, 1) ]} 8.

(** 4x1, density 0: no mine. *)
Definition board_4x1 : MineSweeper := fresh 4 1 ∅ 4.

(** 1x1, density 1: the only square is a mine. *)
Definition board_1x1 : MineSweeper := fresh 1 1 {[ (0, 0) ]} 0.

(** One row and minus one column, density 0. *)
Definition board_negative_width : MineSweeper := fresh (-1) 1 ∅ (-1).

(** 2x2, density -0.5: the mine target is -2. *)
Definition board_2x2_negative : MineSweeper := fresh 2 2 ∅ 6.

(** No column at all. *)
Definition board_0x5 : MineSweeper := fresh 0 5 ∅ 0.

(** The double 0.5. *)
Definition half : spec_float := S754_finite false 4503599627370496 (-53).

(** 1x2, density 0.5, the generator returns 0 and 0: one mine, at (0,0). *)
Definition board_1x2_mined : MineSweeper := fresh 1 2 {[ (0, 0) ]} 1.

(** ** The squares of the board and their neighbours *)

Section Geometry.

Lemma elem_of_board_cells (c r : Z) (xy : coord) :
  xy ∈ board_cells c r ↔ 0 ≤ xy.1 < c ∧ 0 ≤ xy.2 < r.
Proof.
  destruct xy as [x y]. unfold board_cells, range. simpl.
  rewrite list_elem_of_bind. split.
  - intros (x' & Hy & Hx). apply list_elem_of_bind in Hy as (y' & Hxy & Hy).
    apply list_elem_of_singleton in Hxy. simplify_eq.
    apply elem_of_seqZ in Hx. apply elem_of_seqZ in Hy. lia.
  - intros [Hx Hy]. exists x. split; [|apply elem_of_seqZ; lia].
    apply list_elem_of_bind. exists y. split; [|apply elem_of_seqZ; lia].
    by apply list_elem_of_singleton.
Qed.

Lemma NoDup_board_cells (c r : Z) : NoDup (board_cells c r).
Proof.
  unfold board_cells, range. apply NoDup_bind.
  - intros x1 x2 xy _ _ H1 H2.
    apply list_elem_of_bind in H1 as (y1 & H1 & _).
    apply list_elem_of_bind in H2 as (y2 & H2 & _).
    apply list_elem_of_singleton in H1, H2. congruence.
  - intros x _. apply NoDup_bind.
    + intros y1 y2 xy _ _ H1 H2.
      apply list_elem_of_singleton in H1, H2. congruence.
    + intros y _. apply NoDup_singleton.
    + apply NoDup_seqZ.
  - apply NoDup_seqZ.
Qed.

Lemma length_board_cells (c r : Z) :
  0 ≤ c → 0 ≤ r → Z.of_nat (length (board_cells c r)) = c * r.
Proof.
  intros Hc Hr. unfold board_cells, range.
  assert (Hrow : ∀ x : Z, length (y ← seqZ 0 r; [(x, y)]) = Z.to_nat r).
  { intros x. generalize (seqZ 0 r) (length_seqZ 0 r).
    intros l <-. induction l as [|y l IH]; [done|].
    rewrite bind_cons, length_app, IH. done. }
  assert (Hall : ∀ l : list Z,
    length (x ← l; y ← seqZ 0 r; [(x, y)]) = (length l * Z.to_nat r)%nat).
  { induction l as [|x l IH]; [done|].
    rewrite bind_cons, length_app, Hrow, IH. simpl. lia. }
  rewrite Hall, length_seqZ. lia.
Qed.

Lemma elem_of_area (xy p : coord) : p ∈ area xy ↔ chebyshev p xy ≤ 1.
Proof.
  destruct xy as [x y], p as [px py]. unfold area, chebyshev. cbn.
  rewrite !elem_of_cons, elem_of_nil. split.
  - intros H. destruct_or!; simplify_eq; lia.
  - intros H.
    assert (px = x - 1 ∨ px = x ∨ px = x + 1) as Hx by lia.
    assert (py = y - 1 ∨ py = y ∨ py = y + 1) as Hy by lia.
    destruct Hx as [-> | [-> | ->]], Hy as [-> | [-> | ->]]; tauto.
Qed.

Lemma chebyshev_eq_0 (p q : coord) : chebyshev p q = 0 ↔ p = q.
Proof.
  destruct p as [px py], q as [qx qy]. unfold chebyshev. simpl. split.
  - intros H. f_equal; lia.
  - intros [= -> ->]. lia.
Qed.

Lemma chebyshev_nonneg (p q : coord) : 0 ≤ chebyshev p q.
Proof. unfold chebyshev. lia. Qed.

Lemma elem_of_neighbours_of (X : gset coord) (xy p : coord) :
  p ∈ neighbours_of X xy ↔ p ∈ X ∧ chebyshev p xy = 1.
Proof.
  unfold neighbours_of.
  rewrite elem_of_list_to_set, list_elem_of_filter, elem_of_area.
  pose proof (chebyshev_eq_0 p xy). pose proof (chebyshev_nonneg p xy).
  split.
  - intros [[Hne HX] Hle]. split; [done|].
    destruct (decide (chebyshev p xy = 0)); [|lia]. tauto.
  - intros [HX H1]. split; [|lia]. split; [|done]. intros ->.
    assert (chebyshev xy xy = 0) by tauto. lia.
Qed.

Lemma elem_of_ring (xy p : coord) : p ∈ ring xy ↔ chebyshev p xy = 1.
Proof.
  destruct xy as [x y], p as [px py]. unfold ring, chebyshev. simpl.
  rewrite !elem_of_cons, elem_of_nil. split.
  - intros H. destruct_or!; simplify_eq; lia.
  - intros H.
    assert (px = x - 1 ∨ px = x ∨ px = x + 1) as Hx by lia.
    assert (py = y - 1 ∨ py = y ∨ py = y + 1) as Hy by lia.
    destruct Hx as [-> | [-> | ->]], Hy as [-> | [-> | ->]]; try tauto; lia.
Qed.

Lemma NoDup_ring (xy : coord) : NoDup (ring xy).
Proof.
  destruct xy as [x y]. unfold ring. simpl.
  repeat (apply NoDup_cons; split;
          [rewrite !elem_of_cons, elem_of_nil; intros H;
           destruct_or!; simplify_eq; lia|]).
  apply NoDup_singleton.
Qed.

Lemma neighbours_of_subseteq_ring (X : gset coord) (xy : coord) :
  neighbours_of X xy ⊆ list_to_set (ring xy).
Proof.
  intros p Hp. apply elem_of_neighbours_of in Hp as [_ Hp].
  apply elem_of_list_to_set. by apply elem_of_ring.
Qed.

Lemma size_neighbours_of (X : gset coord) (xy : coord) :
  (size (neighbours_of X xy) ≤ 8)%nat.
Proof.
  etrans; [apply subseteq_size, neighbours_of_subseteq_ring|].
  by rewrite size_list_to_set by apply NoDup_ring.
Qed.

Lemma size_neighbours_of_full (X : gset coord) (xy : coord) :
  (∀ p, chebyshev p xy = 1 → p ∈ X) →
  size (neighbours_of X xy) = 8%nat.
Proof.
  intros HX.
  assert (neighbours_of X xy = list_to_set (ring xy)) as ->.
  { apply set_eq. intros p.
    rewrite elem_of_neighbours_of, elem_of_list_to_set, elem_of_ring.
    split; [by intros [_ ?]|]. intros Hp. split; [by apply HX|done]. }
  by rewrite size_list_to_set by apply NoDup_ring.
Qed.

Lemma lookup_build_neighbours (X : gset coord) (xy : coord) :
  build_neighbours X !! xy =
    if decide (xy ∈ X) then Some (neighbours_of X xy) else None.
Proof.
  unfold build_neighbours. case_decide as Hin.
  - apply lookup_set_to_map; [naive_solver|]. by exists xy.
  - apply eq_None_not_Some. intros [ns Hns].
    apply lookup_set_to_map in Hns; [|naive_solver].
    destruct Hns as (xy' & Hin' & [= -> _]). done.
Qed.

End Geometry.

(** ** The sign of the mine target *)

Section MinesNumber.

Lemma binary_round_aux_sign (s : bool) (m e : Z) (l : location) :
  has_sign s (binary_round_aux Float64.prec Float64.emax s m e l).
Proof.
  unfold binary_round_aux.
  destruct (shr_fexp _ _ m e l) as [mrs e'].
  destruct (shr_fexp _ _ _ e' loc_Exact) as [mrs' e''].
  destruct (shr_m mrs'); [done| |done].
  by destruct (_ <=? _)%Z.
Qed.

Lemma of_int_sign (z : Z) (f : spec_float) :
  0 ≤ z → Float64.of_int z = Ok f → sign_clear f.
Proof.
  unfold Float64.of_int, binary_normalize. intros Hz.
  destruct z as [|p|p]; [by intros [= <-]| |lia].
  unfold binary_round. destruct (shl_align _ _ _) as [mz ez].
  pose proof (binary_round_aux_sign false (Z.pos mz) ez loc_Exact) as Hs.
  destruct (binary_round_aux _ _ _ _ _ _); intros [= <-]; done.
Qed.

Lemma mul_not_negative (x y : spec_float) :
  not_negative x → sign_clear y → not_negative (Float64.mul x y).
Proof.
  unfold Float64.mul.
  destruct x as [sx|sx| |sx mx ex], y as [sy|sy| |sy my ey];
    simpl; intros Hx Hy; subst; try done.
  pose proof (binary_round_aux_sign (xorb false false)
                (Z.pos (mx * my)) (ex + ey) loc_Exact) as Hs.
  by destruct (binary_round_aux _ _ _ _ _ _).
Qed.

Lemma leb_zero_not_negative (x : spec_float) :
  Float64.leb Float64.zero x = true → not_negative x.
Proof. by destruct x as [|[]| |[]]. Qed.

Lemma to_int_not_negative (x : spec_float) (n : Z) :
  not_negative x → Float64.to_int x = Ok n → 0 ≤ n.
Proof.
  destruct x as [s|s| |s m e]; simpl; try done.
  - intros _ [= <-]. lia.
  - intros -> [= <-]. simpl. by apply Z.shiftl_nonneg.
Qed.


Lemma density_product_not_negative (d : spec_float) (c r : Z) (q : spec_float) :
  0 ≤ c → 0 ≤ r → Float64.leb Float64.zero d = true →
  density_product d c r = Ok q → not_negative q.
Proof.
  intros Hc Hr Hd%leb_zero_not_negative. unfold density_product, Float64.mul_int.
  destruct (Float64.of_int c) as [fc|] eqn:Ec; [|done].
  destruct (Float64.of_int r) as [fr|] eqn:Er; [|done].
  cbn. intros [= <-]. eauto using mul_not_negative, of_int_sign.
Qed.

Lemma mines_number_of_Ok (d : spec_float) (c r n : Z) :
  mines_number_of d c r = Ok n →
  ∃ q, density_product d c r = Ok q ∧ Float64.to_int q = Ok n.
Proof.
  unfold mines_number_of. destruct (density_product d c r) as [q|]; [|done].
  cbn. eauto.
Qed.

Lemma mines_number_of_nonneg (d : spec_float) (c r n : Z) :
  0 ≤ c → 0 ≤ r → Float64.leb Float64.zero d = true →
  mines_number_of d c r = Ok n → 0 ≤ n.
Proof.
  intros Hc Hr Hd (q & Hq & Hn)%mines_number_of_Ok.
  eauto using to_int_not_negative, density_product_not_negative.
Qed.

End MinesNumber.

(** ** Mine placement *)

Section Placement.

Lemma randrange_Ok (n raw x : Z) :
  randrange n raw = Ok x → 0 < n ∧ 0 ≤ x < n.
Proof.
  unfold randrange. case_decide; [done|]. intros [= <-].
  pose proof (Z.mod_pos_bound raw n). lia.
Qed.

Lemma size_add_le (p : coord) (M : gset coord) :
  (size ({[ p ]} ∪ M) ≤ S (size M))%nat.
Proof.
  destruct (decide (p ∈ M)).
  - rewrite (subseteq_union_1_L {[ p ]} M) by set_solver. lia.
  - rewrite size_union, size_singleton by set_solver. lia.
Qed.

Lemma place_mines_Ok (c r n : Z) (tape : list (Z * Z)) (M M' : gset coord) :
  place_mines c r n M tape = Some (Ok M') →
  M ⊆ M'
  ∧ (∀ p, p ∈ M' → p ∈ M ∨ (0 ≤ p.1 < c ∧ 0 ≤ p.2 < r))
  ∧ Z.of_nat (size M') = n `max` Z.of_nat (size M).
Proof.
  revert M. induction tape as [|[rx ry] tape IH]; intros M; simpl.
  - case_decide; [done|]. intros [= <-]. split_and!; [done|auto|lia].
  - case_decide as Hlt; [|intros [= <-]; split_and!; [done|auto|lia]].
    destruct (randrange c rx) as [x|] eqn:Ex; [|done].
    destruct (randrange r ry) as [y|] eqn:Ey; [|done].
    apply randrange_Ok in Ex, Ey.
    intros (Hsub & Hin & Hsize)%IH. split_and!.
    + etrans; [apply (union_subseteq_r {[ (x, y) ]})|done].
    + intros p [Hp|Hp]%Hin; [|by right].
      apply elem_of_union in Hp as [->%elem_of_singleton|Hp]; [right|by left].
      simpl. lia.
    + pose proof (size_add_le (x, y) M). lia.
Qed.

Lemma place_mines_unfold (c r n : Z) (M : gset coord) (tape : list (Z * Z)) :
  place_mines c r n M tape =
    if decide (Z.of_nat (size M) < n) then
      match tape with
      | [] => None
      | (rx, ry) :: tape' =>
          match randrange c rx with
          | Raise e => Some (Raise e)
          | Ok x =>
              match randrange r ry with
              | Raise e => Some (Raise e)
              | Ok y => place_mines c r n ({[ (x, y) ]} ∪ M) tape'
              end
          end
      end
    else Some (Ok M).
Proof. by destruct tape. Qed.

(** The loop stops at once when the target is not positive. *)
Lemma place_mines_nonpos (c r n : Z) (tape : list (Z * Z)) :
  n ≤ 0 → place_mines c r n ∅ tape = Some (Ok ∅).
Proof.
  intros Hn. rewrite place_mines_unfold, size_empty.
  case_decide; [lia|done].
Qed.

(** With a positive target, the first call of [randrange] on a
    non-positive bound raises. *)
Lemma place_mines_ValueError (c r n : Z) (tape : list (Z * Z)) :
  0 < n → c ≤ 0 ∨ r ≤ 0 → tape ≠ [] →
  place_mines c r n ∅ tape = Some (Raise ValueError).
Proof.
  intros Hn Hcr Ht. destruct tape as [|[rx ry] tape]; [done|].
  rewrite place_mines_unfold, size_empty.
  case_decide as Hlt; [|lia].
  unfold randrange. repeat case_decide; try done; lia.
Qed.

(** A target above the number of squares is never reached. *)
Lemma place_mines_starves (c r n : Z) (tape : list (Z * Z)) (M : gset coord) :
  0 < c → 0 < r → c * r < n →
  M ⊆ list_to_set (board_cells c r) →
  place_mines c r n M tape = None.
Proof.
  intros Hc Hr Hn. revert M.
  assert (Hfull : ∀ M : gset coord,
    M ⊆ list_to_set (board_cells c r) → Z.of_nat (size M) < n).
  { intros M HM%subseteq_size.
    rewrite size_list_to_set in HM by apply NoDup_board_cells.
    pose proof (length_board_cells c r). lia. }
  induction tape as [|[rx ry] tape IH]; intros M HM;
    rewrite place_mines_unfold;
    (case_decide as Hlt; [|apply Hfull in HM; lia]); [done|].
  unfold randrange. repeat case_decide; try lia.
  apply IH. apply union_subseteq. split; [|done].
  apply singleton_subseteq_l, elem_of_list_to_set, elem_of_board_cells.
  simpl. pose proof (Z.mod_pos_bound rx c). pose proof (Z.mod_pos_bound ry r).
  lia.
Qed.

Lemma init_Ok (tape : list (Z * Z)) (c r : Z) (d : spec_float)
    (b : MineSweeper) :
  init tape c r d = Some (Ok b) →
  ∃ n mines,
    mines_number_of d c r = Ok n
    ∧ place_mines c r n ∅ tape = Some (Ok mines)
    ∧ b = {| columns := c; rows := r;
             xys := list_to_set (board_cells c r);
             neighbours := build_neighbours (list_to_set (board_cells c r));
             _mines := mines;
             empty_remaining := c * r - n;
             opened := ∅; flagged := ∅; mines_near := ∅ |}.
Proof.
  unfold init. destruct (mines_number_of d c r) as [n|]; [|done].
  destruct (place_mines c r n ∅ tape) as [[mines|]|] eqn:E; [|done..].
  intros [= <-]. by exists n, mines.
Qed.

End Placement.

(** ** Invariants of the board *)

(** Propositional goals about membership, after the set operations have
    been rewritten away. *)
Ltac crush_members :=
  repeat match goal with
    | |- _ ∧ _ => split
    | |- _ ↔ _ => split
    | |- _ ≠ _ => intro
    | |- ¬ _ => intro
    | |- _ → _ => intro
    | H : _ ∧ _ |- _ => destruct H
    | H : _ ∨ _ |- _ => destruct H
    | H : ?x = _ |- _ => subst x
    | H : _ = ?x |- _ => subst x
    end;
  try done; try tauto.

Section Invariants.

Implicit Types (b : MineSweeper) (xy p : coord) (c : call).

Lemma same_board_refl b : same_board b b.
Proof. by repeat split. Qed.

Lemma same_board_trans b1 b2 b3 :
  same_board b1 b2 → same_board b2 b3 → same_board b1 b3.
Proof. unfold same_board. intros (?&?&?&?&?) (?&?&?&?&?). split_and!; congruence. Qed.

(** *** The four ways through [open] *)

Lemma open_opened b xy : xy ∈ opened b → open b xy = (b, Ok []).
Proof. intros H. unfold open. by rewrite decide_True. Qed.

Lemma open_mine b xy :
  xy ∉ opened b → xy ∈ _mines b →
  open b xy =
    (flag (set_mines_near (set_opened b ({[ xy ]} ∪ opened b))
             (<[xy := Mine]> (mines_near b))) xy,
     Ok [YouDied]).
Proof.
  intros Ho Hm. unfold open. rewrite decide_False by done. simpl.
  by rewrite decide_True.
Qed.

Lemma open_KeyError b xy :
  xy ∉ opened b → xy ∉ _mines b → neighbours b !! xy = None →
  open b xy = (set_opened b ({[ xy ]} ∪ opened b), Raise KeyError).
Proof.
  intros Ho Hm Hn. unfold open. rewrite decide_False by done. simpl.
  rewrite decide_False by done. by rewrite Hn.
Qed.

Lemma open_safe b xy ns :
  xy ∉ opened b → xy ∉ _mines b → neighbours b !! xy = Some ns →
  open b xy =
    (opened_safe b xy ns,
     Ok (if decide (empty_remaining b - 1 ≤ 0)
         then [win (opened_safe b xy ns)] else [])).
Proof.
  intros Ho Hm Hn. unfold open. rewrite decide_False by done. simpl.
  rewrite decide_False by done. rewrite Hn. simpl.
  by case_decide.
Qed.

Lemma lookup_neighbours b xy :
  sound b →
  neighbours b !! xy =
    if decide (in_bounds b xy) then Some (neighbours_of (xys b) xy) else None.
Proof.
  intros Hb. rewrite (sound_neighbours b Hb), lookup_build_neighbours.
  pose proof (sound_xys b Hb xy). by repeat case_decide; try tauto.
Qed.

Lemma mine_in_bounds b xy : sound b → xy ∈ _mines b → in_bounds b xy.
Proof. intros Hb Hm. apply (sound_xys b Hb), (sound_mines b Hb), Hm. Qed.

Lemma open_cases b xy : sound b → open_case b xy (open b xy).
Proof.
  intros Hb.
  destruct (decide (xy ∈ opened b)) as [Ho|Ho].
  { rewrite open_opened by done. by constructor. }
  destruct (decide (xy ∈ _mines b)) as [Hm|Hm].
  { rewrite open_mine by done. constructor; eauto using mine_in_bounds. }
  pose proof (lookup_neighbours b xy Hb) as Hn.
  case_decide as Hin.
  - rewrite (open_safe b xy _ Ho Hm Hn). by constructor.
  - rewrite (open_KeyError b xy Ho Hm Hn). by constructor.
Qed.

(** *** What each call keeps *)

Lemma near_of_same b b' p : same_board b b' → near_of b' p = near_of b p.
Proof. intros (_ & _ & HX & _ & HM). unfold near_of. by rewrite HX, HM. Qed.

Lemma flag_same b xy : same_board b (flag b xy).
Proof. by repeat split. Qed.

Lemma right_clicked_same b xy : same_board b (right_clicked b xy).
Proof. unfold right_clicked. by repeat case_decide; repeat split. Qed.

Lemma open_same b xy : same_board b (open b xy).1.
Proof.
  unfold open. repeat case_decide; simpl; try by repeat split.
  destruct (neighbours b !! xy); simpl; [|by repeat split].
  by case_decide; repeat split.
Qed.

Lemma step_same b c : same_board b (step b c).1.
Proof. destruct c; simpl; auto using open_same, flag_same, right_clicked_same. Qed.

Lemma run_snoc b cs c : run b (cs ++ [c]) = (step (run b cs) c).1.
Proof. unfold run. by rewrite foldl_app. Qed.

Lemma run_cons b c cs : run b (c :: cs) = run (step b c).1 cs.
Proof. done. Qed.

Lemma run_app b cs1 cs2 : run b (cs1 ++ cs2) = run (run b cs1) cs2.
Proof. unfold run. by rewrite foldl_app. Qed.

Lemma run_same b cs : same_board b (run b cs).
Proof.
  revert b. induction cs as [|c cs IH]; intros b; [apply same_board_refl|].
  rewrite run_cons. eauto using same_board_trans, step_same.
Qed.

Lemma in_bounds_same b b' p : same_board b b' → in_bounds b' p ↔ in_bounds b p.
Proof. intros (Hc & Hr & _). unfold in_bounds. by rewrite Hc, Hr. Qed.

Lemma flag_sound b xy : sound b → sound (flag b xy).
Proof.
  intros [HX HN HM Hnear Hdead]. split; simpl; try done.
  etrans; [apply Hdead|]. apply union_subseteq_r.
Qed.

Lemma right_clicked_sound b xy : sound b → sound (right_clicked b xy).
Proof.
  intros Hb. unfold right_clicked.
  case_decide as Hf; [by apply flag_sound|].
  case_decide as Hd; [done|].
  destruct Hb as [HX HN HM Hnear Hdead]. split; simpl; try done.
  intros p Hp. apply elem_of_difference. split; [by apply Hdead|].
  intros ->%elem_of_singleton. apply Hd.
  by apply elem_of_intersection in Hp.
Qed.

Lemma open_sound b xy : sound b → sound (open b xy).1.
Proof.
  intros Hb. destruct (open_cases b xy Hb) as [Ho|Ho Hm Hin|Ho Hm Hin|Ho Hm Hin];
    [done|..]; destruct Hb as [HX HN HM Hnear Hdead]; split; simpl; try done.
  - intros p. unfold near_of at 1. simpl. fold (near_of b p).
    destruct (decide (p = xy)) as [->|Hne].
    + rewrite lookup_insert_eq, decide_True.
      * unfold near_of. by rewrite decide_True.
      * split; [apply elem_of_union_l, elem_of_singleton; done|by apply HX].
    + rewrite lookup_insert_ne, Hnear by done.
      apply decide_ext. rewrite elem_of_union, elem_of_singleton. tauto.
  - intros p [Hp Hpm]%elem_of_intersection.
    apply elem_of_union in Hp as [Hp|Hp]; [by apply elem_of_union_l|].
    apply elem_of_union_r, Hdead. by apply elem_of_intersection.
  - intros p. unfold near_of at 1. simpl. fold (near_of b p).
    rewrite Hnear. apply decide_ext.
    rewrite elem_of_union, elem_of_singleton. split; [tauto|].
    intros [[->|Hp] Hx]; [|done]. by apply HX in Hx.
  - intros p [Hp Hpm]%elem_of_intersection. apply Hdead.
    apply elem_of_intersection. split; [|done].
    apply elem_of_union in Hp as [->%elem_of_singleton|Hp]; done.
  - intros p. unfold near_of at 1. simpl. fold (near_of b p).
    destruct (decide (p = xy)) as [->|Hne].
    + rewrite lookup_insert_eq, decide_True.
      * unfold near_of. by rewrite decide_False.
      * split; [apply elem_of_union_l, elem_of_singleton; done|by apply HX].
    + rewrite lookup_insert_ne, Hnear by done.
      apply decide_ext. rewrite elem_of_union, elem_of_singleton. tauto.
  - intros p [Hp Hpm]%elem_of_intersection.
    apply elem_of_union in Hp as [->%elem_of_singleton|Hp]; [done|].
    apply elem_of_difference. split.
    + apply Hdead. by apply elem_of_intersection.
    + intros ->%elem_of_singleton. done.
Qed.

Lemma step_sound b c : sound b → sound (step b c).1.
Proof.
  destruct c; simpl; auto using open_sound, flag_sound, right_clicked_sound.
Qed.

Lemma run_sound b cs : sound b → sound (run b cs).
Proof.
  revert b. induction cs as [|c cs IH]; intros b Hb; [done|].
  rewrite run_cons. auto using step_sound.
Qed.

(** *** Boards returned by [__init__] *)

Lemma init_sound tape (cols rws : Z) d b :
  init tape cols rws d = Some (Ok b) → sound b.
Proof.
  intros (n & mines & _ & Hpl & ->)%init_Ok.
  apply place_mines_Ok in Hpl as (_ & Hin & _).
  split; simpl.
  - intros p. by rewrite elem_of_list_to_set, elem_of_board_cells.
  - done.
  - intros p [Hp|Hp]%Hin; [by apply not_elem_of_empty in Hp|].
    by apply elem_of_list_to_set, elem_of_board_cells.
  - intros p. rewrite lookup_empty, decide_False; [done|].
    intros [Hp _]. by apply not_elem_of_empty in Hp.
  - intros p [Hp _]%elem_of_intersection. by apply not_elem_of_empty in Hp.
Qed.

Lemma init_fresh tape (cols rws : Z) d b :
  init tape cols rws d = Some (Ok b) →
  columns b = cols ∧ rows b = rws
  ∧ opened b = ∅ ∧ flagged b = ∅ ∧ mines_near b = ∅.
Proof. by intros (n & mines & _ & _ & ->)%init_Ok. Qed.

Lemma size_board (cols rws : Z) :
  0 ≤ cols → 0 ≤ rws →
  Z.of_nat (size (list_to_set (board_cells cols rws) : gset coord)) = cols * rws.
Proof.
  intros. rewrite size_list_to_set by apply NoDup_board_cells.
  by apply length_board_cells.
Qed.

Lemma init_count tape (cols rws : Z) d b n :
  mines_number_of d cols rws = Ok n → 0 ≤ n →
  init tape cols rws d = Some (Ok b) →
  Z.of_nat (size (_mines b)) = n ∧ empty_remaining b = cols * rws - n.
Proof.
  intros Hn Hpos (n' & mines & Hn' & Hpl & ->)%init_Ok. simpl.
  assert (n' = n) as -> by congruence.
  apply place_mines_Ok in Hpl as (_ & _ & Hsize).
  rewrite size_empty in Hsize. lia.
Qed.

Lemma init_balanced tape (cols rws : Z) d b n :
  0 ≤ cols → 0 ≤ rws → mines_number_of d cols rws = Ok n → 0 ≤ n →
  init tape cols rws d = Some (Ok b) → balanced b.
Proof.
  intros Hc Hr Hn Hpos Hb.
  pose proof (init_sound _ _ _ _ _ Hb) as Hs.
  pose proof (init_count _ _ _ _ _ _ Hn Hpos Hb) as [Hm He].
  apply init_Ok in Hb as (n' & mines & _ & _ & ->).
  unfold balanced, unopened_safe. simpl in *.
  rewrite difference_empty_L, size_difference by apply (sound_mines _ Hs).
  pose proof (size_board cols rws Hc Hr).
  pose proof (subseteq_size _ _ (sound_mines _ Hs)). simpl in *. lia.
Qed.

(** *** The count of closed safe squares *)

Lemma open_unopened_safe b xy :
  sound b → unopened_safe (open b xy).1 = unopened_safe b ∖ {[ xy ]}.
Proof.
  intros Hb. pose proof (sound_xys b Hb xy) as HX.
  destruct (open_cases b xy Hb); unfold unopened_safe; simpl;
    apply set_eq; intros p;
    rewrite ?elem_of_difference, ?elem_of_union, ?elem_of_singleton;
    crush_members.
Qed.

Lemma step_unopened_safe b c :
  sound b → unopened_safe (step b c).1 = unopened_safe b ∖ opens c.
Proof.
  intros Hb. destruct c as [xy|xy|xy]; simpl.
  - by apply open_unopened_safe.
  - by rewrite difference_empty_L.
  - rewrite difference_empty_L. unfold right_clicked.
    by repeat case_decide.
Qed.

Lemma open_empty_remaining b xy :
  sound b →
  empty_remaining (open b xy).1 =
    if decide (xy ∈ unopened_safe b) then empty_remaining b - 1
    else empty_remaining b.
Proof.
  intros Hb. pose proof (sound_xys b Hb xy) as HX.
  unfold unopened_safe.
  destruct (open_cases b xy Hb); simpl; case_decide as Hin; try done;
    rewrite !elem_of_difference in Hin; tauto.
Qed.

Lemma open_balanced b xy : sound b → balanced b → balanced (open b xy).1.
Proof.
  unfold balanced. intros Hb Hbal.
  rewrite open_empty_remaining, open_unopened_safe by done.
  case_decide as Hin.
  - rewrite size_difference, size_singleton by by apply singleton_subseteq_l.
    assert (size (unopened_safe b) ≠ 0%nat); [|lia].
    apply size_non_empty_iff. intros Hemp. by apply Hemp in Hin.
  - rewrite Hbal. do 2 f_equal. apply set_eq. intros p.
    rewrite elem_of_difference, elem_of_singleton. split; [|tauto].
    intros Hp. split; [done|]. by intros ->.
Qed.

Lemma step_balanced b c : sound b → balanced b → balanced (step b c).1.
Proof.
  intros Hb Hbal. destruct c as [xy|xy|xy]; simpl.
  - by apply open_balanced.
  - done.
  - unfold right_clicked. by repeat case_decide.
Qed.

Lemma run_balanced b cs : sound b → balanced b → balanced (run b cs).
Proof.
  revert b. induction cs as [|c cs IH]; intros b Hb Hbal; [done|].
  rewrite run_cons. auto using step_sound, step_balanced.
Qed.

(** *** Win and Loss *)

Lemma size_zero_empty (X : gset coord) : size X = 0%nat ↔ X = ∅.
Proof. rewrite size_empty_iff. apply leibniz_equiv_iff. Qed.

Lemma is_win_win b : is_win (win b) = true.
Proof. unfold win. by case_decide. Qed.

Lemma is_loss_win b : is_loss (win b) = false.
Proof. unfold win. by case_decide. Qed.

Lemma open_signals_win b xy :
  sound b →
  signals is_win (open b xy).2 = true
  ↔ xy ∈ unopened_safe b ∧ empty_remaining b - 1 ≤ 0.
Proof.
  intros Hb. pose proof (sound_xys b Hb xy) as HX. unfold unopened_safe.
  rewrite !elem_of_difference.
  destruct (open_cases b xy Hb); simpl; [crush_members..|].
  case_decide; simpl; [rewrite is_win_win|]; crush_members.
Qed.

Lemma open_signals_loss b xy :
  sound b →
  signals is_loss (open b xy).2 = true ↔ xy ∈ _mines b ∧ xy ∉ opened b.
Proof.
  intros Hb.
  destruct (open_cases b xy Hb); simpl; [crush_members..|].
  case_decide; simpl; [rewrite is_loss_win|]; crush_members.
Qed.

Lemma last_safe (U : gset coord) xy :
  xy ∈ U ∧ Z.of_nat (size U) - 1 ≤ 0 ↔ U ≠ ∅ ∧ U ∖ {[ xy ]} = ∅.
Proof.
  split.
  - intros [Hin Hsz]. split; [by intros ->|].
    apply size_zero_empty.
    rewrite size_difference, size_singleton by by apply singleton_subseteq_l.
    lia.
  - intros [Hne Hemp].
    assert (xy ∈ U) as Hin.
    { destruct (decide (xy ∈ U)) as [|Hout]; [done|]. destruct Hne.
      rewrite <-Hemp. apply set_eq. intros p.
      rewrite elem_of_difference, elem_of_singleton. crush_members. }
    split; [done|]. apply size_zero_empty in Hemp.
    rewrite size_difference, size_singleton in Hemp
      by by apply singleton_subseteq_l.
    lia.
Qed.

(** A call signals Win exactly when it closes the game: some safe square
    was closed before it and none is after it. *)
Lemma step_signals_win b c :
  sound b → balanced b →
  signals is_win (step b c).2 = true
  ↔ unopened_safe b ≠ ∅ ∧ unopened_safe (step b c).1 = ∅.
Proof.
  intros Hb Hbal. rewrite step_unopened_safe by done.
  destruct c as [xy|xy|xy]; simpl.
  - rewrite open_signals_win, Hbal by done. apply last_safe.
  - rewrite difference_empty_L. crush_members.
  - rewrite difference_empty_L. crush_members.
Qed.

Lemma wins_game_over b cs :
  sound b → balanced b → unopened_safe b = ∅ → wins (trace b cs) = 0%nat.
Proof.
  revert b. induction cs as [|c cs IH]; intros b Hb Hbal Hover; [done|].
  simpl. rewrite IH; auto using step_sound, step_balanced.
  - destruct (signals is_win (step b c).2) eqn:Hw; [|done].
    apply step_signals_win in Hw as [Hne _]; done.
  - rewrite step_unopened_safe, Hover by done.
    apply set_eq. intros p. rewrite elem_of_difference. crush_members.
Qed.

Lemma wins_at_most_once b cs :
  sound b → balanced b → (wins (trace b cs) ≤ 1)%nat.
Proof.
  revert b. induction cs as [|c cs IH]; intros b Hb Hbal; simpl; [lia|].
  destruct (signals is_win (step b c).2) eqn:Hw.
  - apply step_signals_win in Hw as [_ Hover]; [|done..].
    rewrite wins_game_over; auto using step_sound, step_balanced.
  - apply IH; auto using step_sound, step_balanced.
Qed.

Lemma wins_exactly_once b cs :
  sound b → balanced b →
  unopened_safe b ≠ ∅ → unopened_safe (run b cs) = ∅ →
  wins (trace b cs) = 1%nat.
Proof.
  revert b. induction cs as [|c cs IH]; intros b Hb Hbal Hne Hover; [done|].
  rewrite run_cons in Hover. simpl.
  destruct (decide (unopened_safe (step b c).1 = ∅)) as [Hnow|Hlater].
  - rewrite (proj2 (step_signals_win b c Hb Hbal)) by done.
    rewrite wins_game_over; auto using step_sound, step_balanced.
  - rewrite IH; auto using step_sound, step_balanced.
    destruct (signals is_win (step b c).2) eqn:Hw; [|done].
    apply step_signals_win in Hw as [_ Hw]; done.
Qed.

(** *** Calls on squares of the board *)

Lemma open_tidy b xy : sound b → in_bounds b xy → tidy b → tidy (open b xy).1.
Proof.
  intros Hb Hin [Ho Hf]. apply (sound_xys b Hb) in Hin.
  destruct (open_cases b xy Hb); simpl; split; simpl; try done;
    intros p; rewrite ?elem_of_union, ?elem_of_difference, ?elem_of_singleton;
    specialize (Ho p); specialize (Hf p); crush_members.
Qed.

Lemma flag_tidy b xy : sound b → in_bounds b xy → tidy b → tidy (flag b xy).
Proof.
  intros Hb Hin [Ho Hf]. apply (sound_xys b Hb) in Hin. split; simpl; [done|].
  intros p. rewrite elem_of_union, elem_of_singleton.
  specialize (Hf p). crush_members.
Qed.

Lemma right_clicked_tidy b xy :
  sound b → in_bounds b xy → tidy b → tidy (right_clicked b xy).
Proof.
  intros Hb Hin Ht. unfold right_clicked.
  repeat case_decide; auto using flag_tidy.
  destruct Ht as [Ho Hf]. split; simpl; [done|].
  intros p [Hp _]%elem_of_difference. by apply Hf.
Qed.

Lemma step_tidy b c :
  sound b → in_bounds b (target c) → tidy b → tidy (step b c).1.
Proof.
  destruct c; simpl; auto using open_tidy, flag_tidy, right_clicked_tidy.
Qed.

Lemma run_tidy b cs :
  sound b → Forall (λ c, in_bounds b (target c)) cs → tidy b → tidy (run b cs).
Proof.
  revert b. induction cs as [|c cs IH]; intros b Hb Hin Ht; [done|].
  apply Forall_cons in Hin as [Hc Hcs]. rewrite run_cons.
  apply IH; auto using step_sound, step_tidy.
  eapply Forall_impl; [apply Hcs|]. intros c' Hc'. simpl in Hc'.
  by apply (in_bounds_same b _ _ (step_same b c)).
Qed.

Lemma dom_mines_near b :
  sound b → dom (mines_near b) = opened b ∩ xys b.
Proof.
  intros Hb. apply set_eq. intros p.
  rewrite elem_of_dom, (sound_near b Hb), elem_of_intersection.
  case_decide; [|split; [by intros [? ?]|tauto]].
  split; [tauto|eauto].
Qed.

(** *** Nothing is taken back *)

Lemma open_opened_mono b xy : opened b ⊆ opened (open b xy).1.
Proof.
  unfold open. case_decide; [done|]. simpl.
  case_decide; simpl; [apply union_subseteq_r|].
  destruct (neighbours b !! xy); simpl; [|apply union_subseteq_r].
  case_decide; simpl; apply union_subseteq_r.
Qed.

Lemma step_opened_mono b c : opened b ⊆ opened (step b c).1.
Proof.
  destruct c as [xy|xy|xy]; simpl; [apply open_opened_mono|done|].
  unfold right_clicked. by repeat case_decide.
Qed.

Lemma step_mines_near_mono b c p v :
  sound b →
  mines_near b !! p = Some v → mines_near (step b c).1 !! p = Some v.
Proof.
  intros Hb Hp. destruct c as [xy|xy|xy]; simpl; [|done|].
  - assert (p ∈ opened b) as Hop.
    { rewrite (sound_near b Hb) in Hp. case_decide; [tauto|done]. }
    destruct (open_cases b xy Hb); simpl; try done;
      (rewrite lookup_insert_ne; [done|by intros ->]).
  - unfold right_clicked. by repeat case_decide.
Qed.

End Invariants.


(** ** What [__init__] returns on the example boards *)

Section Examples.

Lemma init_fresh_board tape (c r : Z) d n mines :
  mines_number_of d c r = Ok n →
  place_mines c r n ∅ tape = Some (Ok mines) →
  init tape c r d = Some (Ok (fresh c r mines (c * r - n))).
Proof. intros Hn Hp. unfold init. by rewrite Hn, Hp. Qed.

Lemma init_board_3x3 : init [(1, 1)] 3 3 fifth = Some (Ok board_3x3).
Proof. by apply (init_fresh_board _ 3 3 fifth 1). Qed.

Lemma init_board_4x1 tape : init tape 4 1 Float64.zero = Some (Ok board_4x1).
Proof.
  apply (init_fresh_board _ 4 1 Float64.zero 0); [done|].
  by apply place_mines_nonpos.
Qed.

Lemma init_board_1x1 : init [(0, 0)] 1 1 Float64.one = Some (Ok board_1x1).
Proof. by apply (init_fresh_board _ 1 1 Float64.one 1). Qed.

Lemma init_board_negative_width tape :
  init tape (-1) 1 Float64.zero = Some (Ok board_negative_width).
Proof.
  apply (init_fresh_board _ (-1) 1 Float64.zero 0); [done|].
  by apply place_mines_nonpos.
Qed.

Lemma init_board_2x2_negative tape :
  init tape 2 2 minus_half = Some (Ok board_2x2_negative).
Proof.
  apply (init_fresh_board _ 2 2 minus_half (-2)); [done|].
  by apply place_mines_nonpos.
Qed.

Lemma init_board_1x2_mined :
  init [(0, 0)] 1 2 half = Some (Ok board_1x2_mined).
Proof. by apply (init_fresh_board _ 1 2 half 1). Qed.

Lemma init_board_0x5 tape : init tape 0 5 fifth = Some (Ok board_0x5).
Proof.
  apply (init_fresh_board _ 0 5 fifth 0); [done|].
  by apply place_mines_nonpos.
Qed.

End Examples.

(** * The properties of the specification *)

(** ** Neighbours *)

(** C5.  On every board that [__init__] returns and for every square [xy]
    of the board, [neighbours[xy]] is defined and is exactly the set of the
    squares of the board at Chebyshev distance 1 from [xy]: it does not
    contain [xy], has at most 8 elements, and has exactly 8 when [xy] is on
    no edge of the board. *)
Theorem neighbours_moore tape (cols rws : Z) d (b : MineSweeper) (xy : coord) :
  init tape cols rws d = Some (Ok b) →
  in_bounds b xy →
  ∃ ns : gset coord,
    neighbours b !! xy = Some ns
    ∧ (∀ p, p ∈ ns ↔ in_bounds b p ∧ chebyshev p xy = 1)
    ∧ (xy ∉ ns)
    ∧ (size ns ≤ 8)%nat
    ∧ (0 < xy.1 < columns b - 1 → 0 < xy.2 < rows b - 1 → size ns = 8%nat).
Proof.
  intros Hb%init_sound Hin. exists (neighbours_of (xys b) xy).
  pose proof (sound_xys b Hb) as HX.
  split_and!.
  - rewrite lookup_neighbours by done. by rewrite decide_True.
  - intros p. by rewrite elem_of_neighbours_of, HX.
  - intros [_ Hd]%elem_of_neighbours_of.
    assert (chebyshev xy xy = 0) by by apply chebyshev_eq_0. lia.
  - apply size_neighbours_of.
  - intros Hx Hy. apply size_neighbours_of_full. intros p Hp. apply HX.
    destruct p as [px py], xy as [x y]. unfold in_bounds, chebyshev in *.
    simpl in *. lia.
Qed.

Lemma neighbours_moore_witness :
  ∃ ns : gset coord,
    neighbours board_3x3 !! (1, 1) = Some ns
    ∧ (∀ p, p ∈ ns ↔ in_bounds board_3x3 p ∧ chebyshev p (1, 1) = 1)
    ∧ ((1, 1) ∉ ns)
    ∧ (size ns ≤ 8)%nat
    ∧ (0 < 1 < 3 - 1 → 0 < 1 < 3 - 1 → size ns = 8%nat).
Proof.
  apply (neighbours_moore [(1, 1)] 3 3 fifth board_3x3 (1, 1)).
  - exact init_board_3x3.
  - unfold in_bounds. simpl. lia.
Defined.

(** ** Mine placement *)



(** ** Construction never validates *)

(** C7, as the code has it.  [__init__] checks none of its arguments; an
    exception can come only from the arithmetic of the mine target or from
    [random.randrange].  When the target is not positive a board is
    returned whatever the arguments are; when it is positive and
    [columns <= 0] or [rows <= 0], the first round of the loop raises
    [ValueError]; when both are positive and the target exceeds the number
    of squares, the loop never ends. *)
Theorem init_unchecked tape (cols rws : Z) d :
  match mines_number_of d cols rws with
  | Raise e => init tape cols rws d = Some (Raise e)
  | Ok n =>
      (n ≤ 0 → init tape cols rws d = Some (Ok (fresh cols rws ∅ (cols * rws - n))))
      ∧ (0 < n → cols ≤ 0 ∨ rws ≤ 0 → tape ≠ [] →
         init tape cols rws d = Some (Raise ValueError))
      ∧ (0 < n → 0 < cols → 0 < rws → cols * rws < n →
         init tape cols rws d = None)
  end.
Proof.
  destruct (mines_number_of d cols rws) as [n|e] eqn:Hn.
  - split_and!.
    + intros Hle. apply init_fresh_board; [done|]. by apply place_mines_nonpos.
    + intros Hpos Hcr Ht. unfold init. rewrite Hn.
      by rewrite place_mines_ValueError.
    + intros _ Hc Hr Hbig. unfold init. rewrite Hn.
      by rewrite place_mines_starves.
  - unfold init. by rewrite Hn.
Qed.

Lemma init_unchecked_witness :
  init [] 2 2 minus_half = Some (Ok (fresh 2 2 ∅ (2 * 2 - -2)))
  ∧ init [(0, 0)] (-1) (-1) Float64.one = Some (Raise ValueError).
Proof.
  split.
  - apply (proj1 (init_unchecked [] 2 2 minus_half)). by vm_compute.
  - apply (proj1 (proj2 (init_unchecked [(0, 0)] (-1) (-1) Float64.one))).
    + by vm_compute.
    + left. lia.
    + done.
Defined.

(** Construction does not reject a bad configuration: zero columns, a
    negative density, and density 1 each give a board and no exception. *)
Lemma init_accepts_bad_configuration :
  init [] 0 5 fifth = Some (Ok board_0x5)
  ∧ init [] 2 2 minus_half = Some (Ok board_2x2_negative)
  ∧ init [(0, 0)] 1 1 Float64.one = Some (Ok board_1x1).
Proof.
  split_and!;
    [apply init_board_0x5|apply init_board_2x2_negative|apply init_board_1x1].
Qed.

(** ** The count of safe squares left *)

Section Remaining.

Implicit Types (b : MineSweeper) (xy p : coord) (c : call).

Lemma unopened_safe_empty b :
  unopened_safe b = ∅ ↔ xys b ∖ _mines b ⊆ opened b.
Proof.
  unfold unopened_safe. split.
  - intros He p Hp. destruct (decide (p ∈ opened b)) as [|Hout]; [done|].
    assert (p ∈ (xys b ∖ _mines b) ∖ opened b) as Hin
      by by apply elem_of_difference.
    rewrite He in Hin. by apply not_elem_of_empty in Hin.
  - intros Hsub. apply set_eq. intros p. rewrite elem_of_difference.
    split; [intros [Hp Ho]; by apply Hsub in Hp|].
    intros Hp. by apply not_elem_of_empty in Hp.
Qed.

Lemma size_unopened_safe b :
  sound b → tidy b →
  Z.of_nat (size (unopened_safe b)) =
    Z.of_nat (size (xys b)) - Z.of_nat (size (_mines b))
    - Z.of_nat (size (opened b ∖ _mines b)).
Proof.
  intros Hb [Ho _].
  assert (unopened_safe b = (xys b ∖ _mines b) ∖ (opened b ∖ _mines b)) as ->.
  { unfold unopened_safe. apply set_eq. intros p.
    rewrite !elem_of_difference. crush_members. }
  assert (opened b ∖ _mines b ⊆ xys b ∖ _mines b) as Hsub.
  { intros p. rewrite !elem_of_difference. specialize (Ho p). crush_members. }
  rewrite (size_difference _ _ Hsub).
  rewrite (size_difference _ _ (sound_mines b Hb)).
  pose proof (subseteq_size _ _ Hsub) as H1.
  rewrite (size_difference _ _ (sound_mines b Hb)) in H1.
  pose proof (subseteq_size _ _ (sound_mines b Hb)). lia.
Qed.

Lemma step_signals_win_last b c :
  sound b → balanced b →
  signals is_win (step b c).2 = true
  ↔ ∃ xy, c = Open xy ∧ unopened_safe b = {[ xy ]}.
Proof.
  intros Hb Hbal. destruct c as [xy|xy|xy]; simpl;
    [|split; [done|by intros (? & ? & _)]..].
  rewrite open_signals_win, Hbal by done. split.
  - intros [Hin Hsz]. exists xy. split; [done|].
    assert (size (unopened_safe b) ≠ 0%nat) as Hne.
    { apply size_non_empty_iff. intros He. by apply He in Hin. }
    destruct (size_1_elem_of (unopened_safe b)) as [x Hx]; [lia|].
    apply leibniz_equiv in Hx. rewrite Hx in Hin |- *.
    by apply elem_of_singleton in Hin as ->.
  - intros (xy' & [= <-] & ->). rewrite size_singleton.
    split; [by apply elem_of_singleton|lia].
Qed.

(** A board without squares: nothing to open, no Win. *)
Lemma empty_board (tape : list (Z * Z)) (cols rws : Z) d b :
  ¬ (0 ≤ cols ∧ 0 ≤ rws) → init tape cols rws d = Some (Ok b) → xys b = ∅.
Proof.
  intros Hneg (n & mines & _ & _ & ->)%init_Ok. simpl.
  apply set_eq. intros p. rewrite elem_of_list_to_set, elem_of_board_cells.
  split; [lia|]. intros Hp. by apply not_elem_of_empty in Hp.
Qed.

Lemma unopened_safe_no_square b : xys b = ∅ → unopened_safe b = ∅.
Proof.
  unfold unopened_safe. intros ->. apply set_eq. intros p.
  rewrite !elem_of_difference. split; [|intros Hp]; [intros [[Hp _] _]|];
    by apply not_elem_of_empty in Hp.
Qed.

Lemma no_square_no_win b c :
  sound b → xys b = ∅ → signals is_win (step b c).2 = false.
Proof.
  intros Hb HX. destruct (signals is_win (step b c).2) eqn:Hw; [|done].
  destruct c as [xy|xy|xy]; [|done..]. simpl in Hw.
  apply open_signals_win in Hw as [Hin _]; [|done].
  rewrite unopened_safe_no_square in Hin by done.
  by apply not_elem_of_empty in Hin.
Qed.

Lemma wins_no_square b cs :
  sound b → xys b = ∅ → wins (trace b cs) = 0%nat.
Proof.
  revert b. induction cs as [|c cs IH]; intros b Hb HX; [done|].
  simpl. rewrite no_square_no_win by done.
  apply IH; [by apply step_sound|].
  pose proof (step_same b c) as (_ & _ & HX' & _). by rewrite HX'.
Qed.

End Remaining.

(** C1, as the code has it.  On a board constructed with [columns >= 0]
    and [rows >= 0] whose mine target [int(mines_density * columns * rows)]
    is not negative (as it is for every density >= 0), after any sequence
    of calls of [open], [flag] and the right-click handler on squares of
    the board, [empty_remaining] is the number of squares minus the number
    of mines minus the number of opened squares that are not mines; it is
    never negative, and it is 0 exactly when every square that is not a
    mine has been opened. *)
Theorem remaining_count tape (cols rws : Z) d (n : Z) (b0 : MineSweeper)
    (cs : list call) :
  0 ≤ cols → 0 ≤ rws →
  mines_number_of d cols rws = Ok n → 0 ≤ n →
  init tape cols rws d = Some (Ok b0) →
  Forall (λ c, in_bounds b0 (target c)) cs →
  empty_remaining (run b0 cs) =
    (cols * rws - Z.of_nat (size (_mines (run b0 cs))))
    - Z.of_nat (size (opened (run b0 cs) ∖ _mines (run b0 cs)))
  ∧ 0 ≤ empty_remaining (run b0 cs)
  ∧ (empty_remaining (run b0 cs) = 0
     ↔ xys (run b0 cs) ∖ _mines (run b0 cs) ⊆ opened (run b0 cs)).
Proof.
  intros Hc Hr Hn Hpos Hb0 Hcs.
  pose proof (init_sound _ _ _ _ _ Hb0) as Hs0.
  pose proof (init_balanced _ _ _ _ _ _ Hc Hr Hn Hpos Hb0) as Hbal0.
  assert (tidy b0) as Ht0.
  { pose proof (init_fresh _ _ _ _ _ Hb0) as (_ & _ & Ho & Hf & _).
    unfold tidy. rewrite Ho, Hf. by split. }
  pose proof (run_sound b0 cs Hs0) as Hs.
  pose proof (run_balanced b0 cs Hs0 Hbal0) as Hbal.
  pose proof (run_tidy b0 cs Hs0 Hcs Ht0) as Ht.
  pose proof (run_same b0 cs) as (_ & _ & HX & _ & HM).
  pose proof (size_unopened_safe _ Hs Ht) as Hsize.
  assert (Z.of_nat (size (xys (run b0 cs))) = cols * rws) as Hcells.
  { apply init_Ok in Hb0 as (? & ? & _ & _ & ->). rewrite HX. simpl.
    by apply size_board. }
  unfold balanced in Hbal. split_and!; [lia|lia|].
  rewrite <-unopened_safe_empty, <-size_zero_empty. lia.
Qed.

Lemma remaining_count_witness :
  empty_remaining (run board_3x3 [Open (0, 0); Flag (1, 1)]) =
    (3 * 3 - Z.of_nat (size (_mines (run board_3x3 [Open (0, 0); Flag (1, 1)]))))
    - Z.of_nat (size (opened (run board_3x3 [Open (0, 0); Flag (1, 1)])
                      ∖ _mines (run board_3x3 [Open (0, 0); Flag (1, 1)])))
  ∧ 0 ≤ empty_remaining (run board_3x3 [Open (0, 0); Flag (1, 1)])
  ∧ (empty_remaining (run board_3x3 [Open (0, 0); Flag (1, 1)]) = 0
     ↔ xys (run board_3x3 [Open (0, 0); Flag (1, 1)])
         ∖ _mines (run board_3x3 [Open (0, 0); Flag (1, 1)])
       ⊆ opened (run board_3x3 [Open (0, 0); Flag (1, 1)])).
Proof.
  apply (remaining_count [(1, 1)] 3 3 fifth 1 board_3x3
           [Open (0, 0); Flag (1, 1)]).
  - lia.
  - lia.
  - reflexivity.
  - lia.
  - exact init_board_3x3.
  - repeat constructor; simpl; lia.
Defined.

(** Without that restriction the statement fails on boards that [__init__]
    returns.  On the 2x2 board of density -0.5 the count starts at 6, and
    once the four squares, none a mine, are opened it is 2, not
    (4 - 0) - 4 = 0.  On the board with -1 column and 1 row the count is
    -1 from the start. *)
Lemma remaining_count_off :
  init [] 2 2 minus_half = Some (Ok board_2x2_negative)
  ∧ Forall (λ c, in_bounds board_2x2_negative (target c))
      [Open (0, 0); Open (0, 1); Open (1, 0); Open (1, 1)]
  ∧ opened (run board_2x2_negative
              [Open (0, 0); Open (0, 1); Open (1, 0); Open (1, 1)])
    = xys board_2x2_negative
  ∧ _mines board_2x2_negative = ∅
  ∧ empty_remaining (run board_2x2_negative
                       [Open (0, 0); Open (0, 1); Open (1, 0); Open (1, 1)])
    = 2
  ∧ init [] (-1) 1 Float64.zero = Some (Ok board_negative_width)
  ∧ empty_remaining (run board_negative_width []) = -1.
Proof.
  split_and!;
    [apply init_board_2x2_negative| |by vm_compute..
    |apply init_board_negative_width|done].
  repeat constructor; simpl; lia.
Qed.

(** ** Win *)

(** C2, as the code has it.  On a board whose mine target
    [int(mines_density * columns * rows)] is not negative (as it is for
    every density >= 0 on a board with squares), whatever calls came
    before, a call signals Win exactly when it is the [open] of the one
    safe square that was still closed; so a sequence of calls signals Win
    at most once, and exactly once when it starts with a safe square closed
    and ends with none.  On the 4x1 board of density 0 the count starts at
    4, and [open((0,0))] leaves it at 3 and shows no message. *)
Theorem win_once tape (cols rws : Z) d (n : Z) (b0 : MineSweeper) :
  mines_number_of d cols rws = Ok n → 0 ≤ n →
  init tape cols rws d = Some (Ok b0) →
  (∀ cs c,
     signals is_win (step (run b0 cs) c).2 = true
     ↔ ∃ xy, c = Open xy ∧ unopened_safe (run b0 cs) = {[ xy ]})
  ∧ (∀ cs, (wins (trace b0 cs) ≤ 1)%nat)
  ∧ (∀ cs,
       unopened_safe b0 ≠ ∅ → unopened_safe (run b0 cs) = ∅ →
       wins (trace b0 cs) = 1%nat)
  ∧ (∀ tape', ∃ b,
       init tape' 4 1 Float64.zero = Some (Ok b)
       ∧ empty_remaining b = 4
       ∧ empty_remaining (open b (0, 0)).1 = 3
       ∧ (open b (0, 0)).2 = Ok []).
Proof.
  intros Hn Hpos Hb0.
  pose proof (init_sound _ _ _ _ _ Hb0) as Hs0.
  assert (∀ tape', ∃ b,
       init tape' 4 1 Float64.zero = Some (Ok b)
       ∧ empty_remaining b = 4
       ∧ empty_remaining (open b (0, 0)).1 = 3
       ∧ (open b (0, 0)).2 = Ok []) as Hexample.
  { intros tape'. exists board_4x1. split; [apply init_board_4x1|].
    by vm_compute. }
  destruct (decide (0 ≤ cols ∧ 0 ≤ rws)) as [[Hc Hr]|Hneg].
  - pose proof (init_balanced _ _ _ _ _ _ Hc Hr Hn Hpos Hb0) as Hbal0.
    split_and!; [| | |done].
    + intros cs c. apply step_signals_win_last;
        auto using run_sound, run_balanced.
    + intros cs. by apply wins_at_most_once.
    + intros cs. by apply wins_exactly_once.
  - pose proof (empty_board _ _ _ _ _ Hneg Hb0) as HX0.
    assert (∀ cs, xys (run b0 cs) = ∅) as HX.
    { intros cs. pose proof (run_same b0 cs) as (_ & _ & HX' & _).
      by rewrite HX'. }
    split_and!; [| | |done].
    + intros cs c. rewrite no_square_no_win by auto using run_sound.
      split; [done|]. intros (xy & _ & Hu).
      rewrite unopened_safe_no_square in Hu by done.
      assert (xy ∈ (∅ : gset coord)) as Hin
        by (rewrite Hu; by apply elem_of_singleton).
      by apply not_elem_of_empty in Hin.
    + intros cs. rewrite wins_no_square by done. lia.
    + intros cs Hne. by rewrite unopened_safe_no_square in Hne.
Qed.

Lemma win_once_witness :
  (∀ cs c,
     signals is_win (step (run board_3x3 cs) c).2 = true
     ↔ ∃ xy, c = Open xy ∧ unopened_safe (run board_3x3 cs) = {[ xy ]})
  ∧ (∀ cs, (wins (trace board_3x3 cs) ≤ 1)%nat)
  ∧ (∀ cs,
       unopened_safe board_3x3 ≠ ∅ → unopened_safe (run board_3x3 cs) = ∅ →
       wins (trace board_3x3 cs) = 1%nat)
  ∧ (∀ tape', ∃ b,
       init tape' 4 1 Float64.zero = Some (Ok b)
       ∧ empty_remaining b = 4
       ∧ empty_remaining (open b (0, 0)).1 = 3
       ∧ (open b (0, 0)).2 = Ok []).
Proof.
  apply (win_once [(1, 1)] 3 3 fifth 1 board_3x3).
  - reflexivity.
  - lia.
  - exact init_board_3x3.
Defined.

(** Without that restriction the statement fails on the 2x2 board of
    density -0.5: after three squares are opened one safe square is left,
    and the call that opens it shows no message; no call of the game
    signals Win. *)
Lemma no_win_negative_density :
  init [] 2 2 minus_half = Some (Ok board_2x2_negative)
  ∧ unopened_safe (run board_2x2_negative [Open (0, 0); Open (0, 1); Open (1, 0)])
    = {[ (1, 1) ]}
  ∧ step (run board_2x2_negative [Open (0, 0); Open (0, 1); Open (1, 0)])
      (Open (1, 1))
    = (run board_2x2_negative
         [Open (0, 0); Open (0, 1); Open (1, 0); Open (1, 1)], Ok [])
  ∧ unopened_safe (run board_2x2_negative
                     [Open (0, 0); Open (0, 1); Open (1, 0); Open (1, 1)])
    = ∅
  ∧ wins (trace board_2x2_negative
            [Open (0, 0); Open (0, 1); Open (1, 0); Open (1, 1)]) = 0%nat.
Proof. split_and!; [apply init_board_2x2_negative|by vm_compute..]. Qed.

(** ** Loss *)

Section MineCount.

Lemma mines_around (b : MineSweeper) (p : coord) :
  sound b →
  neighbours_of (xys b) p ∩ _mines b
  = filter (λ m, chebyshev m p = 1) (_mines b).
Proof.
  intros Hb. apply set_eq. intros m.
  rewrite elem_of_intersection, elem_of_filter, elem_of_neighbours_of.
  pose proof (sound_mines b Hb m). crush_members.
Qed.

End MineCount.

(** C3.  On every board that [__init__] returns and after any calls, the
    [open] of a mine that is still closed stores ['mine'] for it in
    [mines_near], flags it, leaves [empty_remaining] as it was and shows
    the Loss message.  The game goes on: whatever calls follow, the [open]
    of a closed square of the board that is not a mine raises nothing,
    stores the number of mines at Chebyshev distance 1 from it and shows
    no Loss message. *)
Theorem open_mine_then_play tape (cols rws : Z) d (b0 : MineSweeper)
    (cs : list call) (xy : coord) :
  init tape cols rws d = Some (Ok b0) →
  xy ∈ _mines (run b0 cs) →
  xy ∉ opened (run b0 cs) →
  mines_near (open (run b0 cs) xy).1 !! xy = Some Mine
  ∧ xy ∈ flagged (open (run b0 cs) xy).1
  ∧ empty_remaining (open (run b0 cs) xy).1 = empty_remaining (run b0 cs)
  ∧ (open (run b0 cs) xy).2 = Ok [YouDied]
  ∧ ∀ (cs' : list call) (p : coord),
      in_bounds b0 p →
      p ∉ _mines b0 →
      p ∉ opened (run (open (run b0 cs) xy).1 cs') →
      mines_near (open (run (open (run b0 cs) xy).1 cs') p).1 !! p
        = Some (Count (Z.of_nat
                  (size (filter (λ m, chebyshev m p = 1) (_mines b0)))))
      ∧ signals is_loss (open (run (open (run b0 cs) xy).1 cs') p).2 = false
      ∧ ∃ ms, (open (run (open (run b0 cs) xy).1 cs') p).2 = Ok ms.
Proof.
  intros Hb0%init_sound Hm Ho.
  pose proof (run_sound b0 cs Hb0) as Hs.
  pose proof (open_mine _ _ Ho Hm) as Hopen. split_and!.
  - rewrite Hopen. simpl. apply lookup_insert_eq.
  - rewrite Hopen. simpl. apply elem_of_union_l. by apply elem_of_singleton.
  - by rewrite Hopen.
  - by rewrite Hopen.
  - clear Hopen. intros cs' p Hin Hpm Hpo.
    set (b1 := (open (run b0 cs) xy).1) in *.
    assert (same_board b0 (run b1 cs')) as Hsame.
    { eapply same_board_trans; [apply run_same|].
      eapply same_board_trans; [apply open_same|apply run_same]. }
    assert (sound (run b1 cs')) as Hs'
      by (apply run_sound, open_sound, Hs).
    pose proof Hsame as (_ & _ & HX & _ & HM).
    rewrite <-HM in Hpm. apply (in_bounds_same _ _ _ Hsame) in Hin.
    pose proof (open_cases _ p Hs') as Hcase.
    inversion Hcase as [?|? ? ?|? ? ?|? _ _ Heq]; try done.
    simpl. rewrite lookup_insert_eq, mines_around, HM by done.
    split; [done|]. case_decide; simpl; [rewrite is_loss_win|]; eauto.
Qed.

Lemma open_mine_then_play_witness :
  mines_near (open (run board_3x3 []) (1, 1)).1 !! (1, 1) = Some Mine
  ∧ (1, 1) ∈ flagged (open (run board_3x3 []) (1, 1)).1
  ∧ empty_remaining (open (run board_3x3 []) (1, 1)).1
    = empty_remaining (run board_3x3 [])
  ∧ (open (run board_3x3 []) (1, 1)).2 = Ok [YouDied]
  ∧ ∀ (cs' : list call) (p : coord),
      in_bounds board_3x3 p →
      p ∉ _mines board_3x3 →
      p ∉ opened (run (open (run board_3x3 []) (1, 1)).1 cs') →
      mines_near (open (run (open (run board_3x3 []) (1, 1)).1 cs') p).1 !! p
        = Some (Count (Z.of_nat
                  (size (filter (λ m, chebyshev m p = 1) (_mines board_3x3)))))
      ∧ signals is_loss
          (open (run (open (run board_3x3 []) (1, 1)).1 cs') p).2 = false
      ∧ ∃ ms, (open (run (open (run board_3x3 []) (1, 1)).1 cs') p).2 = Ok ms.
Proof.
  apply (open_mine_then_play [(1, 1)] 3 3 fifth board_3x3 [] (1, 1)).
  - exact init_board_3x3.
  - by vm_compute.
  - by vm_compute.
Defined.

(** ** State invariants *)

(** C6, as the code has it.  On every board that [__init__] returns, after
    any sequence of calls on squares of the board, [opened] and [flagged]
    hold squares of the board only and the keys of [mines_near] are the
    opened squares.  After any sequence of calls at all, in bounds or not,
    no call removes a square from [opened] or changes an entry of
    [mines_near], and [open] of an opened square changes nothing and shows
    nothing.  (The queries are plain reads of the fields.) *)
Theorem invariants_kept tape (cols rws : Z) d (b0 : MineSweeper) (cs : list call) :
  init tape cols rws d = Some (Ok b0) →
  (Forall (λ c, in_bounds b0 (target c)) cs →
   opened (run b0 cs) ⊆ xys (run b0 cs)
   ∧ flagged (run b0 cs) ⊆ xys (run b0 cs)
   ∧ dom (mines_near (run b0 cs)) = opened (run b0 cs))
  ∧ (∀ c, opened (run b0 cs) ⊆ opened (step (run b0 cs) c).1)
  ∧ (∀ c p v,
       mines_near (run b0 cs) !! p = Some v →
       mines_near (step (run b0 cs) c).1 !! p = Some v)
  ∧ (∀ xy,
       xy ∈ opened (run b0 cs) →
       open (run b0 cs) xy = (run b0 cs, Ok [])).
Proof.
  intros Hb0.
  pose proof (init_sound _ _ _ _ _ Hb0) as Hs0.
  pose proof (run_sound b0 cs Hs0) as Hs.
  split_and!.
  - intros Hcs.
    assert (tidy b0) as Ht0.
    { apply init_fresh in Hb0 as (_ & _ & Ho & Hf & _).
      unfold tidy. rewrite Ho, Hf. by split. }
    pose proof (run_tidy b0 cs Hs0 Hcs Ht0) as [Ho Hf].
    split_and!; [done..|].
    rewrite dom_mines_near by done. apply set_eq. intros p.
    rewrite elem_of_intersection. specialize (Ho p). tauto.
  - intros c. apply step_opened_mono.
  - intros c p v. by apply step_mines_near_mono.
  - intros xy. apply open_opened.
Qed.

Lemma invariants_kept_witness :
  (Forall (λ c, in_bounds board_3x3 (target c)) [Open (0, 0); Flag (2, 2)] →
   opened (run board_3x3 [Open (0, 0); Flag (2, 2)])
     ⊆ xys (run board_3x3 [Open (0, 0); Flag (2, 2)])
   ∧ flagged (run board_3x3 [Open (0, 0); Flag (2, 2)])
     ⊆ xys (run board_3x3 [Open (0, 0); Flag (2, 2)])
   ∧ dom (mines_near (run board_3x3 [Open (0, 0); Flag (2, 2)]))
     = opened (run board_3x3 [Open (0, 0); Flag (2, 2)]))
  ∧ (∀ c, opened (run board_3x3 [Open (0, 0); Flag (2, 2)])
          ⊆ opened (step (run board_3x3 [Open (0, 0); Flag (2, 2)]) c).1)
  ∧ (∀ c p v,
       mines_near (run board_3x3 [Open (0, 0); Flag (2, 2)]) !! p = Some v →
       mines_near (step (run board_3x3 [Open (0, 0); Flag (2, 2)]) c).1 !! p
         = Some v)
  ∧ (∀ xy,
       xy ∈ opened (run board_3x3 [Open (0, 0); Flag (2, 2)]) →
       open (run board_3x3 [Open (0, 0); Flag (2, 2)]) xy
         = (run board_3x3 [Open (0, 0); Flag (2, 2)], Ok [])).
Proof.
  apply (invariants_kept [(1, 1)] 3 3 fifth board_3x3 [Open (0, 0); Flag (2, 2)]).
  exact init_board_3x3.
Defined.

(** Without that restriction the statement fails for calls outside the
    board: on the 3x3 board [flag((5,5))] puts a square that is not on the
    board into [flagged], and [open((5,5))] puts it into [opened] without
    an entry in [mines_near]. *)
Lemma invariants_broken_outside :
  init [(1, 1)] 3 3 fifth = Some (Ok board_3x3)
  ∧ ((5, 5) ∉ xys board_3x3)
  ∧ (5, 5) ∈ flagged (step board_3x3 (Flag (5, 5))).1
  ∧ (5, 5) ∈ opened (step board_3x3 (Open (5, 5))).1
  ∧ (5, 5) ∉ dom (mines_near (step board_3x3 (Open (5, 5))).1).
Proof. split_and!; [apply init_board_3x3|by vm_compute..]. Qed.

(** ** Squares outside the board *)

(** C8, as the code has it.  On every board that [__init__] returns and
    after any calls, for a square outside the board: [open] raises
    [KeyError] if the square is not in [opened] yet, and [flag] raises
    nothing and puts the square into [flagged]. *)
Theorem outside_open_raises_flag_accepts tape (cols rws : Z) d
    (b0 : MineSweeper) (cs : list call) (xy : coord) :
  init tape cols rws d = Some (Ok b0) →
  ¬ in_bounds b0 xy →
  (xy ∉ opened (run b0 cs) → (open (run b0 cs) xy).2 = Raise KeyError)
  ∧ (step (run b0 cs) (Flag xy)).2 = Ok []
  ∧ xy ∈ flagged (step (run b0 cs) (Flag xy)).1.
Proof.
  intros Hb0%init_sound Hout.
  pose proof (run_sound b0 cs Hb0) as Hs.
  rewrite <-(in_bounds_same _ _ _ (run_same b0 cs)) in Hout.
  split_and!.
  - intros Ho. rewrite open_KeyError; [done..| |].
    + intros Hm. by apply Hout, mine_in_bounds.
    + rewrite lookup_neighbours by done. by rewrite decide_False.
  - done.
  - simpl. apply elem_of_union_l. by apply elem_of_singleton.
Qed.

Lemma outside_open_raises_flag_accepts_witness :
  ((5, 5) ∉ opened (run board_3x3 [Open (0, 0)]) →
   (open (run board_3x3 [Open (0, 0)]) (5, 5)).2 = Raise KeyError)
  ∧ (step (run board_3x3 [Open (0, 0)]) (Flag (5, 5))).2 = Ok []
  ∧ (5, 5) ∈ flagged (step (run board_3x3 [Open (0, 0)]) (Flag (5, 5))).1.
Proof.
  apply (outside_open_raises_flag_accepts [(1, 1)] 3 3 fifth board_3x3
           [Open (0, 0)] (5, 5)).
  - exact init_board_3x3.
  - unfold in_bounds. simpl. lia.
Defined.

(** Not every call outside the board raises: on the 3x3 board
    [flag((5,5))] returns normally and the board keeps the flag. *)
Lemma flag_outside_is_silent :
  init [(1, 1)] 3 3 fifth = Some (Ok board_3x3)
  ∧ ¬ in_bounds board_3x3 (5, 5)
  ∧ (step board_3x3 (Flag (5, 5))).2 = Ok []
  ∧ flagged (step board_3x3 (Flag (5, 5))).1 = {[ (5, 5) ]}.
Proof.
  split_and!; [apply init_board_3x3| |done|by vm_compute].
  unfold in_bounds. simpl. lia.
Qed.

(** C10.  On every board that [__init__] returns and after any calls, for
    a square outside the board that is not in [opened]: [open] raises
    [KeyError] after it has added the square to [opened], and that is all
    it has done; the square has no entry in [mines_near]; a second [open]
    of it returns without an exception and changes nothing. *)
Theorem open_outside_not_atomic tape (cols rws : Z) d
    (b0 : MineSweeper) (cs : list call) (xy : coord) :
  init tape cols rws d = Some (Ok b0) →
  ¬ in_bounds b0 xy →
  xy ∉ opened (run b0 cs) →
  open (run b0 cs) xy
    = (set_opened (run b0 cs) ({[ xy ]} ∪ opened (run b0 cs)), Raise KeyError)
  ∧ xy ∈ opened (open (run b0 cs) xy).1
  ∧ mines_near (open (run b0 cs) xy).1 !! xy = None
  ∧ open (open (run b0 cs) xy).1 xy = ((open (run b0 cs) xy).1, Ok []).
Proof.
  intros Hb0%init_sound Hout Ho.
  pose proof (run_sound b0 cs Hb0) as Hs.
  rewrite <-(in_bounds_same _ _ _ (run_same b0 cs)) in Hout.
  assert (open (run b0 cs) xy
          = (set_opened (run b0 cs) ({[ xy ]} ∪ opened (run b0 cs)),
             Raise KeyError)) as Hopen.
  { apply open_KeyError; [done| |].
    - intros Hm. by apply Hout, mine_in_bounds.
    - rewrite lookup_neighbours by done. by rewrite decide_False. }
  assert (xy ∈ opened (open (run b0 cs) xy).1) as Hin.
  { rewrite Hopen. simpl. apply elem_of_union_l. by apply elem_of_singleton. }
  split_and!; [done|done| |by apply open_opened].
  rewrite Hopen. simpl. rewrite (sound_near _ Hs).
  rewrite decide_False; [done|]. by intros [? _].
Qed.

Lemma open_outside_not_atomic_witness :
  open (run board_3x3 [Open (0, 0)]) (5, 5)
    = (set_opened (run board_3x3 [Open (0, 0)])
         ({[ (5, 5) ]} ∪ opened (run board_3x3 [Open (0, 0)])),
       Raise KeyError)
  ∧ (5, 5) ∈ opened (open (run board_3x3 [Open (0, 0)]) (5, 5)).1
  ∧ mines_near (open (run board_3x3 [Open (0, 0)]) (5, 5)).1 !! (5, 5) = None
  ∧ open (open (run board_3x3 [Open (0, 0)]) (5, 5)).1 (5, 5)
    = ((open (run board_3x3 [Open (0, 0)]) (5, 5)).1, Ok []).
Proof.
  apply (open_outside_not_atomic [(1, 1)] 3 3 fifth board_3x3
           [Open (0, 0)] (5, 5)).
  - exact init_board_3x3.
  - unfold in_bounds. simpl. lia.
  - by vm_compute.
Defined.

(** ** Removing a flag *)





(** * Further properties of the code *)

(** ** The neighbour table *)

(** X1.  On every board that [__init__] returns, [neighbours] has an entry
    for the squares of the board and for nothing else, and being a
    neighbour is symmetric: if [q] is in [neighbours[p]] then [p] is in
    [neighbours[q]]. *)
Theorem neighbours_symmetric tape (cols rws : Z) d (b : MineSweeper) :
  init tape cols rws d = Some (Ok b) →
  dom (neighbours b) = xys b
  ∧ ∀ (p q : coord) (np : gset coord),
      neighbours b !! p = Some np → q ∈ np →
      ∃ nq : gset coord, neighbours b !! q = Some nq ∧ p ∈ nq.
Proof.
  intros Hb%init_sound. pose proof (sound_xys b Hb) as HX. split.
  - apply set_eq. intros p. rewrite elem_of_dom, lookup_neighbours, HX by done.
    case_decide; [|split; [by intros [? ?]|done]]. split; [done|eauto].
  - intros p q np Hp Hq. rewrite lookup_neighbours in Hp by done.
    case_decide as Hin; [|done]. injection Hp as <-.
    apply elem_of_neighbours_of in Hq as [Hq Hd].
    exists (neighbours_of (xys b) q). split.
    + rewrite lookup_neighbours by done. rewrite decide_True; [done|].
      by apply HX.
    + apply elem_of_neighbours_of. split; [by apply HX|].
      destruct p as [px py], q as [qx qy]. unfold chebyshev in *. simpl in *.
      lia.
Qed.

Lemma neighbours_symmetric_witness :
  dom (neighbours board_3x3) = xys board_3x3
  ∧ ∀ (p q : coord) (np : gset coord),
      neighbours board_3x3 !! p = Some np → q ∈ np →
      ∃ nq : gset coord, neighbours board_3x3 !! q = Some nq ∧ p ∈ nq.
Proof.
  apply (neighbours_symmetric [(1, 1)] 3 3 fifth board_3x3).
  exact init_board_3x3.
Defined.

Section NeighbourCount.

Lemma neighbours_of_ring (X : gset coord) (xy : coord) :
  neighbours_of X xy = list_to_set (filter (λ p, p ∈ X) (ring xy)).
Proof.
  apply set_eq. intros p.
  rewrite elem_of_neighbours_of, elem_of_list_to_set, list_elem_of_filter,
    elem_of_ring.
  done.
Qed.

Lemma size_neighbours_of_span (X : gset coord) (c r : Z) (xy : coord) :
  (∀ p, p ∈ X ↔ 0 ≤ p.1 < c ∧ 0 ≤ p.2 < r) →
  0 ≤ xy.1 < c → 0 ≤ xy.2 < r →
  Z.of_nat (size (neighbours_of X xy)) = span xy.1 c * span xy.2 r - 1.
Proof.
  intros HX Hx Hy. rewrite neighbours_of_ring.
  rewrite size_list_to_set by apply NoDup_filter, NoDup_ring.
  destruct xy as [x y]. unfold ring, span. simpl in *.
  repeat case_decide;
    repeat (rewrite filter_cons;
            let H := fresh "Hin" in
            destruct (decide _) as [H|H];
            [apply HX in H|rewrite HX in H]; simpl in H; try lia);
    rewrite filter_nil; simpl length; lia.
Qed.

End NeighbourCount.

(** X2.  On every board that [__init__] returns, a square [(x, y)] of the
    board has [w * h - 1] neighbours, where [w] counts those of
    [x - 1, x, x + 1] that are columns of the board and [h] those of
    [y - 1, y, y + 1] that are rows: 8 inside, 5 on an edge and 3 in a
    corner of a board with at least two rows and columns, none on the 1x1
    board. *)
Theorem neighbours_count tape (cols rws : Z) d (b : MineSweeper) (xy : coord) :
  init tape cols rws d = Some (Ok b) →
  in_bounds b xy →
  ∃ ns : gset coord,
    neighbours b !! xy = Some ns
    ∧ Z.of_nat (size ns) = span xy.1 (columns b) * span xy.2 (rows b) - 1.
Proof.
  intros Hb%init_sound Hin. exists (neighbours_of (xys b) xy). split.
  - rewrite lookup_neighbours by done. by rewrite decide_True.
  - destruct Hin as [Hx Hy].
    apply size_neighbours_of_span; [|done..]. apply (sound_xys b Hb).
Qed.

Lemma neighbours_count_witness :
  ∃ ns : gset coord,
    neighbours board_3x3 !! (0, 2) = Some ns
    ∧ Z.of_nat (size ns) = span 0 3 * span 2 3 - 1.
Proof.
  apply (neighbours_count [(1, 1)] 3 3 fifth board_3x3 (0, 2)).
  - exact init_board_3x3.
  - unfold in_bounds. simpl. lia.
Defined.

(** ** The sampling loop *)

Section Sampling.










End Sampling.



(** ** What the calls leave alone *)

(** X4.  No call of [open], [flag] or the right-click handler, in bounds or
    not, changes the size of the board, its squares, the neighbour table or
    the mines. *)
Theorem board_fixed (b : MineSweeper) (cs : list call) :
  columns (run b cs) = columns b
  ∧ rows (run b cs) = rows b
  ∧ xys (run b cs) = xys b
  ∧ neighbours (run b cs) = neighbours b
  ∧ _mines (run b cs) = _mines b.
Proof. apply run_same. Qed.

Section Fields.

Implicit Types (b : MineSweeper) (xy p q : coord) (c : call).

Lemma board_eq b b' :
  same_board b b' →
  empty_remaining b' = empty_remaining b →
  opened b' = opened b →
  flagged b' = flagged b →
  mines_near b' = mines_near b →
  b' = b.
Proof.
  destruct b, b'. unfold same_board. simpl.
  intros (-> & -> & -> & -> & ->) -> -> -> ->. done.
Qed.

Lemma open_opened_field b xy : opened (open b xy).1 = {[ xy ]} ∪ opened b.
Proof.
  unfold open. case_decide as Ho; simpl.
  - apply set_eq. intros p. rewrite elem_of_union, elem_of_singleton.
    split; [tauto|]. by intros [->|?].
  - case_decide; simpl; [done|].
    destruct (neighbours b !! xy); simpl; [|done]. by case_decide.
Qed.

Lemma open_flagged_field b xy :
  sound b →
  flagged (open b xy).1 =
    if decide (xy ∈ opened b) then flagged b
    else if decide (xy ∈ _mines b) then {[ xy ]} ∪ flagged b
    else if decide (in_bounds b xy) then flagged b ∖ {[ xy ]}
    else flagged b.
Proof.
  intros Hb. destruct (open_cases b xy Hb); simpl;
    repeat case_decide; done.
Qed.

Lemma open_mines_near_field b xy :
  sound b →
  mines_near (open b xy).1 =
    if decide ((xy ∉ opened b) ∧ in_bounds b xy)
    then <[xy := near_of b xy]> (mines_near b)
    else mines_near b.
Proof.
  intros Hb. destruct (open_cases b xy Hb); simpl;
    case_decide as Hc; try tauto; try done; unfold near_of.
  - by rewrite decide_True.
  - by rewrite decide_False.
Qed.

Lemma near_of_open b xy p : near_of (open b xy).1 p = near_of b p.
Proof. apply near_of_same, open_same. Qed.

Lemma in_bounds_open b xy p : in_bounds (open b xy).1 p ↔ in_bounds b p.
Proof. apply in_bounds_same, open_same. Qed.

Lemma open_open_comm b p q :
  sound b → (open (open b p).1 q).1 = (open (open b q).1 p).1.
Proof.
  intros Hb. destruct (decide (p = q)) as [->|Hne]; [done|].
  assert (q ≠ p) as Hne' by congruence.
  pose proof (open_sound b p Hb) as Hp.
  pose proof (open_sound b q Hb) as Hq.
  pose proof (open_same b p) as Sp. pose proof (open_same b q) as Sq.
  pose proof (open_same (open b p).1 q) as Spq.
  pose proof (open_same (open b q).1 p) as Sqp.
  pose proof Sp as (_ & _ & _ & _ & HMp).
  pose proof Sq as (_ & _ & _ & _ & HMq).
  assert (∀ x, x ∈ opened (open b p).1 ↔ x = p ∨ x ∈ opened b) as HOp.
  { intros x. by rewrite open_opened_field, elem_of_union, elem_of_singleton. }
  assert (∀ x, x ∈ opened (open b q).1 ↔ x = q ∨ x ∈ opened b) as HOq.
  { intros x. by rewrite open_opened_field, elem_of_union, elem_of_singleton. }
  apply board_eq.
  - unfold same_board in *. destruct_and!. split_and!; congruence.
  - rewrite !open_empty_remaining, !open_unopened_safe by done.
    repeat case_decide; try lia;
      rewrite ?elem_of_difference, ?elem_of_singleton in *; tauto.
  - rewrite !open_opened_field. apply set_eq. intros x.
    rewrite !elem_of_union. tauto.
  - rewrite !open_flagged_field by done. rewrite HMp, HMq.
    repeat (let H := fresh "Hc" in
            case_decide as H;
            rewrite ?HOp, ?HOq, ?in_bounds_open in H); try tauto;
      apply set_eq; intros x;
      rewrite ?elem_of_union, ?elem_of_difference, ?elem_of_union,
        ?elem_of_singleton;
      crush_members.
  - rewrite !open_mines_near_field, !near_of_open by done.
    repeat (let H := fresh "Hc" in
            case_decide as H;
            rewrite ?HOp, ?HOq, ?in_bounds_open in H); try tauto.
    by rewrite insert_insert_ne.
Qed.

Lemma run_opens_perm b cs cs' :
  sound b → Forall (λ c, is_open c = true) cs → cs ≡ₚ cs' →
  run b cs = run b cs'.
Proof.
  intros Hb Hcs Hperm. revert b Hb Hcs.
  induction Hperm as [|c cs cs' _ IH|c1 c2 cs|cs1 cs2 cs3 H12 IH12 _ IH23];
    intros b Hb Hcs.
  - done.
  - apply Forall_cons in Hcs as [_ Hcs]. rewrite !run_cons.
    apply IH; auto using step_sound.
  - apply Forall_cons in Hcs as [H2 Hcs]. apply Forall_cons in Hcs as [H1 _].
    destruct c1 as [p| |], c2 as [q| |]; try done.
    rewrite !run_cons. simpl. by rewrite open_open_comm.
  - rewrite IH12 by done. apply IH23; [done|].
    by rewrite <-H12.
Qed.

End Fields.

(** X5.  On every board that [__init__] returns and after any calls, the
    board that a sequence of [open] calls leaves does not depend on the
    order of the calls (what each call shows does: Win comes with the last
    safe square). *)
Theorem opens_commute tape (cols rws : Z) d (b0 : MineSweeper)
    (cs0 cs cs' : list call) :
  init tape cols rws d = Some (Ok b0) →
  Forall (λ c, is_open c = true) cs →
  cs ≡ₚ cs' →
  run (run b0 cs0) cs = run (run b0 cs0) cs'.
Proof.
  intros Hb0%init_sound Hcs Hperm.
  apply run_opens_perm; auto using run_sound.
Qed.

Lemma opens_commute_witness :
  run (run board_3x3 [Flag (0, 0)]) [Open (0, 0); Open (1, 1); Open (7, 7)]
  = run (run board_3x3 [Flag (0, 0)]) [Open (7, 7); Open (0, 0); Open (1, 1)].
Proof.
  apply (opens_commute [(1, 1)] 3 3 fifth board_3x3 [Flag (0, 0)]).
  - exact init_board_3x3.
  - repeat constructor.
  - symmetry.
    apply (Permutation_cons_append [Open (0, 0); Open (1, 1)] (Open (7, 7))).
Defined.

(** ** What [mines_near] holds *)

Section Published.

Lemma size_mines_at_distance_1 (M : gset coord) (p : coord) :
  (size (filter (λ m, (chebyshev m p = 1)%Z) M) ≤ 8)%nat.
Proof.
  etrans; [apply (subseteq_size _ (list_to_set (ring p)))|].
  - intros m [Hm _]%elem_of_filter.
    by apply elem_of_list_to_set, elem_of_ring.
  - by rewrite size_list_to_set by apply NoDup_ring.
Qed.

End Published.

(** X6.  On every board that [__init__] returns and after any calls, in
    bounds or not, [mines_near] has an entry exactly for the opened squares
    of the board; the entry of a mine is ['mine'], the entry of any other
    square is the number of mines at Chebyshev distance 1 from it, a number
    from 0 to 8. *)
Theorem mines_near_correct tape (cols rws : Z) d (b0 : MineSweeper)
    (cs : list call) (p : coord) :
  init tape cols rws d = Some (Ok b0) →
  mines_near (run b0 cs) !! p =
    (if decide (p ∈ opened (run b0 cs) ∧ in_bounds b0 p)
     then Some (if decide (p ∈ _mines b0) then Mine
                else Count (Z.of_nat
                       (size (filter (λ m, chebyshev m p = 1) (_mines b0)))))
     else None)
  ∧ (size (filter (λ m, (chebyshev m p = 1)%Z) (_mines b0)) ≤ 8)%nat.
Proof.
  intros Hb0%init_sound. split; [|apply size_mines_at_distance_1].
  pose proof (run_sound b0 cs Hb0) as Hs.
  pose proof (run_same b0 cs) as Hsame.
  rewrite (sound_near _ Hs). unfold near_of.
  rewrite (mines_around _ _ Hs).
  pose proof Hsame as (_ & _ & _ & _ & ->).
  pose proof (sound_xys _ Hs p) as HX.
  rewrite (in_bounds_same _ _ _ Hsame) in HX.
  repeat case_decide; try done; tauto.
Qed.

Lemma mines_near_correct_witness :
  mines_near (run board_3x3 [Open (0, 0); Open (5, 5)]) !! (0, 0) =
    (if decide ((0, 0) ∈ opened (run board_3x3 [Open (0, 0); Open (5, 5)])
                ∧ in_bounds board_3x3 (0, 0))
     then Some (if decide ((0, 0) ∈ _mines board_3x3) then Mine
                else Count (Z.of_nat
                       (size (filter (λ m, chebyshev m (0, 0) = 1)
                                (_mines board_3x3)))))
     else None)
  ∧ (size (filter (λ m, (chebyshev m (0, 0) = 1)%Z) (_mines board_3x3))
     ≤ 8)%nat.
Proof.
  apply (mines_near_correct [(1, 1)] 3 3 fifth board_3x3
           [Open (0, 0); Open (5, 5)] (0, 0)).
  exact init_board_3x3.
Defined.

(** ** Flags *)

Section Flags.

Implicit Types (b : MineSweeper) (xy p : coord) (c : call).

Lemma right_clicked_opened b xy : opened (right_clicked b xy) = opened b.
Proof. unfold right_clicked. by repeat case_decide. Qed.

Lemma step_opened_field b c : opened (step b c).1 = opens c ∪ opened b.
Proof.
  destruct c as [xy|xy|xy]; simpl.
  - apply open_opened_field.
  - by rewrite union_empty_l_L.
  - by rewrite right_clicked_opened, union_empty_l_L.
Qed.

Lemma same_but_flags_refl b : same_but_flags b b.
Proof. split; [apply same_board_refl|done]. Qed.

Lemma same_but_flags_trans b1 b2 b3 :
  same_but_flags b1 b2 → same_but_flags b2 b3 → same_but_flags b1 b3.
Proof.
  intros (S12 & ? & ? & ?) (S23 & ? & ? & ?).
  split; [by eapply same_board_trans|]. split_and!; congruence.
Qed.

Lemma same_but_flags_sym b1 b2 : same_but_flags b1 b2 → same_but_flags b2 b1.
Proof.
  intros ((? & ? & ? & ? & ?) & ? & ? & ?). by repeat split.
Qed.

Lemma flag_same_but_flags b xy : same_but_flags b (flag b xy).
Proof. by repeat split. Qed.

Lemma right_clicked_same_but_flags b xy : same_but_flags b (right_clicked b xy).
Proof. unfold right_clicked. by repeat case_decide; repeat split. Qed.

Lemma open_ignores_flags b b' xy :
  same_but_flags b b' →
  same_but_flags (open b xy).1 (open b' xy).1
  ∧ (open b xy).2 = (open b' xy).2.
Proof.
  destruct b, b'. unfold same_but_flags, same_board. simpl.
  intros ((-> & -> & -> & -> & ->) & -> & -> & ->).
  unfold open. simpl. case_decide; simpl; [by repeat split|].
  case_decide; simpl; [by repeat split|].
  destruct (_ !! xy); simpl; [|by repeat split].
  case_decide; simpl; by repeat split.
Qed.

Lemma run_ignores_flags b b' cs :
  same_but_flags b b' → same_but_flags (run b cs) (run b' (opens_only cs)).
Proof.
  revert b b'. induction cs as [|c cs IH]; intros b b' Hbb'; [done|].
  destruct c as [xy|xy|xy]; unfold opens_only.
  - rewrite filter_cons_True by done. rewrite !run_cons. apply IH.
    simpl. by apply open_ignores_flags.
  - rewrite filter_cons_False by done. rewrite run_cons. apply IH.
    eapply same_but_flags_trans; [|done].
    apply same_but_flags_sym, flag_same_but_flags.
  - rewrite filter_cons_False by done. rewrite run_cons. apply IH.
    eapply same_but_flags_trans; [|done].
    apply same_but_flags_sym, right_clicked_same_but_flags.
Qed.

End Flags.

(** X7.  [open] does not look at the flags ("We don't look at flags"): take
    the [flag] calls and the right clicks out of any sequence of calls, on
    any board, and the opened squares, [mines_near], [empty_remaining] and
    what a following [open] returns are the same. *)
Theorem flags_ignored (b : MineSweeper) (cs : list call) (xy : coord) :
  opened (run b cs) = opened (run b (opens_only cs))
  ∧ mines_near (run b cs) = mines_near (run b (opens_only cs))
  ∧ empty_remaining (run b cs) = empty_remaining (run b (opens_only cs))
  ∧ (open (run b cs) xy).2 = (open (run b (opens_only cs)) xy).2.
Proof.
  pose proof (run_ignores_flags b b cs (same_but_flags_refl b))
    as Hsame.
  pose proof (open_ignores_flags _ _ xy Hsame) as [_ Hres].
  destruct Hsame as (_ & ? & ? & ?). by split_and!.
Qed.

(** X8.  On every board that [__init__] returns and after any calls, every
    opened mine is flagged: [open] flags the mine it opens and the
    right-click handler does not remove that flag. *)
Theorem opened_mines_flagged tape (cols rws : Z) d (b0 : MineSweeper)
    (cs : list call) :
  init tape cols rws d = Some (Ok b0) →
  opened (run b0 cs) ∩ _mines b0 ⊆ flagged (run b0 cs).
Proof.
  intros Hb0%init_sound.
  pose proof (sound_dead _ (run_sound b0 cs Hb0)) as Hdead.
  by pose proof (run_same b0 cs) as (_ & _ & _ & _ & <-).
Qed.

Lemma opened_mines_flagged_witness :
  opened (run board_3x3 [Open (1, 1); RightClick (1, 1)]) ∩ _mines board_3x3
  ⊆ flagged (run board_3x3 [Open (1, 1); RightClick (1, 1)]).
Proof.
  apply (opened_mines_flagged [(1, 1)] 3 3 fifth board_3x3
           [Open (1, 1); RightClick (1, 1)]).
  exact init_board_3x3.
Defined.

(** X9.  On every board that [__init__] returns and after any calls,
    [open(xy)] changes the flag of no other square; when [xy] is a closed
    square of the board it is flagged afterwards exactly if it is a mine, so
    a flag on a safe square is cleared by opening it. *)
Theorem open_touches_one_flag tape (cols rws : Z) d (b0 : MineSweeper)
    (cs : list call) (xy : coord) :
  init tape cols rws d = Some (Ok b0) →
  (∀ p, p ≠ xy →
        p ∈ flagged (open (run b0 cs) xy).1 ↔ p ∈ flagged (run b0 cs))
  ∧ (xy ∉ opened (run b0 cs) → in_bounds b0 xy →
     xy ∈ flagged (open (run b0 cs) xy).1 ↔ xy ∈ _mines b0).
Proof.
  intros Hb0%init_sound.
  pose proof (run_sound b0 cs Hb0) as Hs.
  pose proof (run_same b0 cs) as Hsame.
  pose proof Hsame as (_ & _ & _ & _ & HM).
  rewrite open_flagged_field by done. rewrite HM. split.
  - intros p Hne. repeat case_decide;
      rewrite ?elem_of_union, ?elem_of_difference, ?elem_of_singleton; tauto.
  - intros Ho Hin. apply (in_bounds_same _ _ _ Hsame) in Hin.
    repeat case_decide; try tauto;
      rewrite ?elem_of_union, ?elem_of_difference, ?elem_of_singleton; tauto.
Qed.

Lemma open_touches_one_flag_witness :
  (∀ p, p ≠ (0, 0) →
        p ∈ flagged (open (run board_3x3 [Flag (0, 0); Flag (2, 2)]) (0, 0)).1
        ↔ p ∈ flagged (run board_3x3 [Flag (0, 0); Flag (2, 2)]))
  ∧ ((0, 0) ∉ opened (run board_3x3 [Flag (0, 0); Flag (2, 2)]) →
     in_bounds board_3x3 (0, 0) →
     (0, 0) ∈ flagged (open (run board_3x3 [Flag (0, 0); Flag (2, 2)]) (0, 0)).1
     ↔ (0, 0) ∈ _mines board_3x3).
Proof.
  apply (open_touches_one_flag [(1, 1)] 3 3 fifth board_3x3
           [Flag (0, 0); Flag (2, 2)] (0, 0)).
  exact init_board_3x3.
Defined.

(** ** The count, on any board *)

Section Count.

Implicit Types (b : MineSweeper) (xy p : coord) (c : call).

Lemma opened_safe_step b c :
  sound b →
  empty_remaining (step b c).1
    + Z.of_nat (size ((xys b ∖ _mines b) ∩ opened (step b c).1))
  = empty_remaining b + Z.of_nat (size ((xys b ∖ _mines b) ∩ opened b)).
Proof.
  intros Hb. destruct c as [xy|xy|xy]; simpl;
    [|done|by rewrite right_clicked_opened;
           unfold right_clicked; repeat case_decide].
  rewrite open_empty_remaining, open_opened_field by done.
  unfold unopened_safe. case_decide as Hin.
  - apply elem_of_difference in Hin as [Hs Ho].
    assert ((xys b ∖ _mines b) ∩ ({[ xy ]} ∪ opened b)
            = {[ xy ]} ∪ (xys b ∖ _mines b) ∩ opened b) as ->.
    { apply set_eq. intros p.
      rewrite !elem_of_intersection, !elem_of_union, elem_of_intersection,
        elem_of_singleton.
      crush_members. }
    rewrite size_union, size_singleton; [lia|].
    intros p ->%elem_of_singleton [_ ?]%elem_of_intersection. done.
  - f_equal. f_equal. f_equal. apply set_eq. intros p.
    rewrite elem_of_difference in Hin.
    rewrite !elem_of_intersection, !elem_of_union, elem_of_singleton.
    split; [|tauto]. intros [Hs [->|Ho]]; [|done].
    destruct (decide (xy ∈ opened b)); [done|tauto].
Qed.

Lemma opened_safe_run b cs :
  sound b →
  empty_remaining (run b cs)
    + Z.of_nat (size ((xys b ∖ _mines b) ∩ opened (run b cs)))
  = empty_remaining b + Z.of_nat (size ((xys b ∖ _mines b) ∩ opened b)).
Proof.
  revert b. induction cs as [|c cs IH]; intros b Hb; [done|].
  rewrite run_cons. rewrite <-(opened_safe_step b c Hb).
  pose proof (step_same b c) as (_ & _ & HX & _ & HM).
  rewrite <-HX, <-HM. apply IH. by apply step_sound.
Qed.

End Count.

(** X10.  On every board that [__init__] returns, whatever its arguments
    were, and after any calls, in bounds or not, [empty_remaining] is its
    first value [columns * rows - int(mines_density * columns * rows)]
    minus the number of opened squares of the board that are not mines. *)
Theorem remaining_drops tape (cols rws : Z) d (n : Z) (b0 : MineSweeper)
    (cs : list call) :
  mines_number_of d cols rws = Ok n →
  init tape cols rws d = Some (Ok b0) →
  empty_remaining (run b0 cs) =
    cols * rws - n
    - Z.of_nat (size ((xys b0 ∖ _mines b0) ∩ opened (run b0 cs))).
Proof.
  intros Hn Hb0.
  pose proof (opened_safe_run b0 cs (init_sound _ _ _ _ _ Hb0)) as Hrun.
  apply init_Ok in Hb0 as (n' & mines & Hn' & _ & ->). simpl in *.
  assert (n' = n) as -> by congruence.
  rewrite intersection_empty_r_L, size_empty in Hrun. lia.
Qed.

Lemma remaining_drops_witness :
  empty_remaining
    (run board_2x2_negative [Open (0, 0); Open (9, 9); Flag (1, 1)]) =
    2 * 2 - -2
    - Z.of_nat
        (size ((xys board_2x2_negative ∖ _mines board_2x2_negative)
               ∩ opened (run board_2x2_negative
                           [Open (0, 0); Open (9, 9); Flag (1, 1)]))).
Proof.
  apply (remaining_drops [] 2 2 minus_half (-2) board_2x2_negative
           [Open (0, 0); Open (9, 9); Flag (1, 1)]).
  - reflexivity.
  - exact (init_board_2x2_negative []).
Defined.

(** ** Messages *)

Section Messages.

Implicit Types (b : MineSweeper) (xy p : coord) (c : call).

Lemma step_signals_loss b c :
  sound b →
  signals is_loss (step b c).2 = true
  ↔ ∃ xy, c = Open xy ∧ xy ∈ _mines b ∧ xy ∉ opened b.
Proof.
  intros Hb. destruct c as [xy|xy|xy]; simpl;
    [|split; [done|by intros (? & ? & _)]..].
  rewrite open_signals_loss by done. split.
  - intros [? ?]. by exists xy.
  - by intros (? & [= <-] & ? & ?).
Qed.

Lemma losses_run b cs :
  sound b →
  (losses (trace b cs) + size (opened b ∩ _mines b))%nat
  = size (opened (run b cs) ∩ _mines b).
Proof.
  revert b. induction cs as [|c cs IH]; intros b Hb; [done|].
  rewrite run_cons. cbn [trace losses].
  pose proof (step_same b c) as (_ & _ & _ & _ & HM).
  rewrite <-HM, <-(IH (step b c).1) by by apply step_sound.
  rewrite HM, step_opened_field.
  destruct (signals is_loss (step b c).2) eqn:Hl.
  - apply step_signals_loss in Hl as (xy & -> & Hm & Ho); [|done].
    unfold opens.
    assert (({[ xy ]} ∪ opened b) ∩ _mines b
            = {[ xy ]} ∪ opened b ∩ _mines b) as ->.
    { apply set_eq. intros p.
      rewrite elem_of_intersection, !elem_of_union, elem_of_intersection,
        elem_of_singleton.
      crush_members. }
    pose proof (size_union (C:=gset coord) {[ xy ]} (opened b ∩ _mines b))
      as Hsize.
    rewrite Hsize, size_singleton; [lia|].
    intros p ->%elem_of_singleton [? _]%elem_of_intersection. done.
  - assert ((opens c ∪ opened b) ∩ _mines b = opened b ∩ _mines b) as ->;
      [|lia].
    apply set_eq. intros p.
    rewrite !elem_of_intersection, elem_of_union. split; [|tauto].
    intros [[Hc|?] Hm]; [|done]. split; [|done].
    destruct c as [xy|xy|xy]; simpl in Hc;
      [|by apply not_elem_of_empty in Hc..].
    apply elem_of_singleton in Hc as ->.
    destruct (decide (xy ∈ opened b)) as [|Ho]; [done|].
    assert (signals is_loss (step b (Open xy)).2 = true) as Hl'
      by (apply step_signals_loss; eauto).
    congruence.
Qed.

Lemma open_messages b xy ms :
  sound b → (open b xy).2 = Ok ms →
  ms = []
  ∨ (ms = [YouDied] ∧ xy ∈ _mines b ∧ xy ∉ opened b)
  ∨ (ms = [if decide (size (opened b ∩ _mines b) = 0%nat)
           then AliveAndVictorious
           else WonAfterDying (size (opened b ∩ _mines b))]
     ∧ xy ∈ unopened_safe b).
Proof.
  intros Hb. pose proof (sound_xys b Hb xy) as HX.
  destruct (open_cases b xy Hb) as [Ho|Ho Hm Hin|Ho Hm Hin|Ho Hm Hin]; simpl.
  - intros [= <-]. by left.
  - intros [= <-]. right. by left.
  - done.
  - case_decide; intros [= <-]; [|by left]. right. right. split.
    + unfold win. simpl.
      assert (({[ xy ]} ∪ opened b) ∩ _mines b = opened b ∩ _mines b) as ->;
        [|done].
      apply set_eq. intros p.
      rewrite !elem_of_intersection, elem_of_union, elem_of_singleton.
      crush_members.
    + unfold unopened_safe. rewrite !elem_of_difference. tauto.
Qed.

End Messages.

(** X11.  On every board that [__init__] returns and after any calls, a
    call shows the Loss message exactly when it is the [open] of a mine
    that was still closed; so the number of Loss messages of a game is the
    number of opened mines, and no mine kills twice. *)
Theorem loss_once_per_mine tape (cols rws : Z) d (b0 : MineSweeper) :
  init tape cols rws d = Some (Ok b0) →
  (∀ cs c,
     signals is_loss (step (run b0 cs) c).2 = true
     ↔ ∃ xy, c = Open xy ∧ xy ∈ _mines b0 ∧ xy ∉ opened (run b0 cs))
  ∧ (∀ cs, losses (trace b0 cs) = size (opened (run b0 cs) ∩ _mines b0))
  ∧ (∀ cs, (losses (trace b0 cs) ≤ size (_mines b0))%nat).
Proof.
  intros Hb0. pose proof (init_sound _ _ _ _ _ Hb0) as Hs0.
  assert (∀ cs, losses (trace b0 cs) = size (opened (run b0 cs) ∩ _mines b0))
    as Hcount.
  { intros cs. rewrite <-(losses_run b0 cs Hs0).
    apply init_fresh in Hb0 as (_ & _ & -> & _).
    rewrite intersection_empty_l_L, size_empty. lia. }
  split_and!; [|done|].
  - intros cs c. rewrite step_signals_loss by by apply run_sound.
    by pose proof (run_same b0 cs) as (_ & _ & _ & _ & ->).
  - intros cs. rewrite Hcount. apply subseteq_size, intersection_subseteq_r.
Qed.

Lemma loss_once_per_mine_witness :
  (∀ cs c,
     signals is_loss (step (run board_3x3 cs) c).2 = true
     ↔ ∃ xy, c = Open xy ∧ xy ∈ _mines board_3x3
             ∧ xy ∉ opened (run board_3x3 cs))
  ∧ (∀ cs, losses (trace board_3x3 cs)
           = size (opened (run board_3x3 cs) ∩ _mines board_3x3))
  ∧ (∀ cs, (losses (trace board_3x3 cs) ≤ size (_mines board_3x3))%nat).
Proof.
  apply (loss_once_per_mine [(1, 1)] 3 3 fifth board_3x3).
  exact init_board_3x3.
Defined.

(** X12.  On every board that [__init__] returns and after any calls, the
    Win message that a call shows tells how the game went: it is "You are
    ALIVE AND VICTORIOUS" when no Loss message was shown before, and "You
    won, after dying only k times" with [k] the number of Loss messages
    shown before otherwise. *)
Theorem win_message_counts_deaths tape (cols rws : Z) d (b0 : MineSweeper)
    (cs : list call) (c : call) (ms : list message) (m : message) :
  init tape cols rws d = Some (Ok b0) →
  (step (run b0 cs) c).2 = Ok ms →
  m ∈ ms →
  is_win m = true →
  m = if decide (losses (trace b0 cs) = 0%nat) then AliveAndVictorious
      else WonAfterDying (losses (trace b0 cs)).
Proof.
  intros Hb0 Hres Hm Hwin.
  destruct (loss_once_per_mine _ _ _ _ _ Hb0) as (_ & Hcount & _).
  apply init_sound in Hb0. pose proof (run_sound b0 cs Hb0) as Hs.
  pose proof (run_same b0 cs) as (_ & _ & _ & _ & HM).
  rewrite Hcount, <-HM.
  destruct c as [xy|xy|xy]; simpl in Hres;
    [|injection Hres as <-; by apply elem_of_nil in Hm..].
  destruct (open_messages _ _ _ Hs Hres) as [->|[[-> _]|[-> _]]].
  - by apply elem_of_nil in Hm.
  - apply list_elem_of_singleton in Hm as ->. done.
  - by apply list_elem_of_singleton in Hm as ->.
Qed.

Lemma win_message_counts_deaths_witness :
  WonAfterDying 1 =
    if decide (losses (trace board_1x2_mined [Open (0, 0)]) = 0%nat)
    then AliveAndVictorious
    else WonAfterDying (losses (trace board_1x2_mined [Open (0, 0)])).
Proof.
  apply (win_message_counts_deaths [(0, 0)] 1 2 half board_1x2_mined
           [Open (0, 0)] (Open (0, 1)) [WonAfterDying 1] (WonAfterDying 1)).
  - exact init_board_1x2_mined.
  - by vm_compute.
  - by apply list_elem_of_singleton.
  - reflexivity.
Defined.

(** X13.  On every board that [__init__] returns and after any calls,
    [open] raises only [KeyError], and it does so exactly for a square
    outside the board that is not in [opened]; in every other case it
    returns and shows at most one message. *)
Theorem open_raises_only_outside tape (cols rws : Z) d (b0 : MineSweeper)
    (cs : list call) (xy : coord) :
  init tape cols rws d = Some (Ok b0) →
  ((∃ e, (open (run b0 cs) xy).2 = Raise e)
   ↔ (xy ∉ opened (run b0 cs)) ∧ ¬ in_bounds b0 xy)
  ∧ (∀ e, (open (run b0 cs) xy).2 = Raise e → e = KeyError)
  ∧ (∀ ms, (open (run b0 cs) xy).2 = Ok ms → (length ms ≤ 1)%nat).
Proof.
  intros Hb0%init_sound. pose proof (run_sound b0 cs Hb0) as Hs.
  pose proof (in_bounds_same _ _ xy (run_same b0 cs)) as Hin.
  rewrite <-Hin.
  destruct (open_cases _ xy Hs); simpl; split_and!;
    try (intros ? [= <-]; simpl; try case_decide; simpl; lia);
    try (by intros ? [= <-]); try done;
    (split; [intros [e He]; try done; by split|intros [? ?]; eauto; done]).
Qed.

Lemma open_raises_only_outside_witness :
  ((∃ e, (open (run board_3x3 [Open (0, 0)]) (3, 0)).2 = Raise e)
   ↔ ((3, 0) ∉ opened (run board_3x3 [Open (0, 0)]))
     ∧ ¬ in_bounds board_3x3 (3, 0))
  ∧ (∀ e, (open (run board_3x3 [Open (0, 0)]) (3, 0)).2 = Raise e
          → e = KeyError)
  ∧ (∀ ms, (open (run board_3x3 [Open (0, 0)]) (3, 0)).2 = Ok ms
           → (length ms ≤ 1)%nat).
Proof.
  apply (open_raises_only_outside [(1, 1)] 3 3 fifth board_3x3
           [Open (0, 0)] (3, 0)).
  exact init_board_3x3.
Defined.


(** ** The GUI wrapper *)

Section Redraw.

Implicit Types (g : MineSweeperGUI) (b : MineSweeper) (xy p : coord)
  (c : call) (w : button).

Lemma text_fg_bg_ext g g' xy :
  board g' = board g → _default_button_bg g' = _default_button_bg g →
  text_fg_bg g' xy = text_fg_bg g xy.
Proof. unfold text_fg_bg. by intros -> ->. Qed.

Lemma up_to_date_ext g g' xy w :
  board g' = board g → _default_button_bg g' = _default_button_bg g →
  up_to_date g xy w → up_to_date g' xy w.
Proof.
  intros Hb Hd (text & fg & bg & Ht & ? & ? & ? & Hr).
  exists text, fg, bg. rewrite (text_fg_bg_ext g g') by done.
  rewrite Hb. by split_and!.
Qed.

Lemma refresh_board g xy : board (refresh g xy).1 = board g.
Proof.
  unfold refresh. destruct (squares g !! xy); [|done].
  destruct (text_fg_bg g xy) as [[[text fg] bg]|]; [|done].
  simpl. by case_decide.
Qed.

Lemma refresh_default_bg g xy :
  _default_button_bg (refresh g xy).1 = _default_button_bg g.
Proof.
  unfold refresh. destruct (squares g !! xy); [|done].
  destruct (text_fg_bg g xy) as [[[text fg] bg]|]; [|done].
  simpl. by case_decide.
Qed.

Lemma refresh_missing g xy :
  squares g !! xy = None → refresh g xy = (g, Broke (Py KeyError)).
Proof. intros H. unfold refresh. by rewrite H. Qed.

Lemma refresh_title g xy :
  (refresh g xy).2 = Fine () →
  window_title (refresh g xy).1 =
    if decide (0 < empty_remaining (board g))
    then LeftToOpen (empty_remaining (board g))
    else window_title g.
Proof.
  unfold refresh. destruct (squares g !! xy); [|done].
  destruct (text_fg_bg g xy) as [[[text fg] bg]|]; [|done].
  simpl. by case_decide.
Qed.

Lemma refresh_broke_title g xy e :
  (refresh g xy).2 = Broke e → (refresh g xy).1 = g.
Proof.
  unfold refresh. destruct (squares g !! xy); [|done].
  by destruct (text_fg_bg g xy) as [[[text fg] bg]|].
Qed.

Lemma refresh_fine g xy w text fg bg :
  squares g !! xy = Some w →
  text_fg_bg g xy = Fine (text, fg, bg) →
  (refresh g xy).2 = Fine () ∧ redrawn {[ xy ]} g (refresh g xy).1.
Proof.
  intros Hw Ht.
  pose proof (refresh_board g xy) as Hb.
  pose proof (refresh_default_bg g xy) as Hd.
  unfold redrawn. rewrite Hb, Hd. revert Hb Hd.
  unfold refresh. rewrite Hw, Ht. cbn [fst snd]. intros Hb Hd.
  set (w' := if decide (xy ∈ opened (board g))
             then config_relief (config w text fg bg) SUNKEN
             else config w text fg bg).
  set (g1 := set_squares g (<[xy := w']> (squares g))).
  assert (∀ g2, board g2 = board g → _default_button_bg g2 = _default_button_bg g →
                squares g2 = <[xy := w']> (squares g) →
                dom (squares g2) = dom (squares g)
                ∧ (∀ p w0, p ∈ ({[ xy ]} : gset coord) →
                           squares g2 !! p = Some w0 → up_to_date g2 p w0)
                ∧ (∀ p, p ∉ ({[ xy ]} : gset coord) →
                        squares g2 !! p = squares g !! p)) as Hgen.
  { intros g2 Hb2 Hd2 Hs2. rewrite Hs2. split_and!.
    - rewrite dom_insert_L. apply set_eq. intros p.
      rewrite elem_of_union, elem_of_singleton. split; [|tauto].
      intros [->|?]; [|done]. apply elem_of_dom. eauto.
    - intros p w0 ->%elem_of_singleton. rewrite lookup_insert_eq.
      intros [= <-]. exists text, fg, bg.
      rewrite (text_fg_bg_ext g g2), Hb2 by done.
      subst w'. case_decide; simpl; split_and!; try done;
        by intros c ->.
    - intros p Hp. apply lookup_insert_ne. intros ->. apply Hp.
      by apply elem_of_singleton. }
  clear Hb Hd.
  destruct (decide (0 < empty_remaining (board g1)));
    (split; [done|]); (split; [done|]); (split; [done|]); by apply Hgen.
Qed.

Lemma redrawn_refl g : redrawn ∅ g g.
Proof.
  split_and!; try done; intros p w Hp; by apply not_elem_of_empty in Hp.
Qed.

Lemma redrawn_trans S1 S2 g1 g2 g3 :
  redrawn S1 g1 g2 → redrawn S2 g2 g3 → redrawn (S1 ∪ S2) g1 g3.
Proof.
  intros (Hb1 & Hd1 & Hk1 & Hin1 & Hout1) (Hb2 & Hd2 & Hk2 & Hin2 & Hout2).
  split_and!; try congruence.
  - intros p w Hp Hw. destruct (decide (p ∈ S2)) as [|Hn2]; [by apply Hin2|].
    rewrite Hout2 in Hw by done.
    apply (up_to_date_ext g2); [done..|]. apply Hin1; [|done].
    apply elem_of_union in Hp as [?|?]; done.
  - intros p Hp. rewrite elem_of_union in Hp.
    rewrite Hout2, Hout1 by tauto. done.
Qed.

Lemma redrawn_message S g g' t :
  redrawn S g g' → redrawn S g (gui_message g' t).
Proof.
  intros (Hb & Hd & Hk & Hin & Hout). by split_and!.
Qed.

Lemma redrawn_set_board S g g' b :
  redrawn S (set_board g b) g' → board g' = b ∧
  _default_button_bg g' = _default_button_bg g
  ∧ dom (squares g') = dom (squares g)
  ∧ (∀ p w, p ∈ S → squares g' !! p = Some w → up_to_date g' p w)
  ∧ (∀ p, p ∉ S → squares g' !! p = squares g !! p).
Proof. by intros (Hb & Hd & Hk & Hin & Hout). Qed.

End Redraw.

Section Wrapper.

Implicit Types (g : MineSweeperGUI) (b : MineSweeper) (xy p : coord)
  (c : call) (w : button).

Lemma text_fg_bg_fine g xy :
  sound (board g) → xy ∈ xys (board g) → is_Some (_default_button_bg g) →
  ∃ (text : string) (fg : option string) (bg : string),
    text_fg_bg g xy = Fine (text, fg, bg).
Proof.
  intros Hb Hxy [bg0 Hbg]. unfold text_fg_bg. rewrite Hbg.
  rewrite (sound_near _ Hb). unfold near_of.
  repeat case_decide; try tauto; eauto.
Qed.

Lemma text_fg_bg_local g b' p :
  _mines b' = _mines (board g) →
  (p ∈ opened b' ↔ p ∈ opened (board g)) →
  mines_near b' !! p = mines_near (board g) !! p →
  (p ∈ flagged b' ↔ p ∈ flagged (board g)) →
  (p ∉ opened (board g) →
   0 < empty_remaining b' ↔ 0 < empty_remaining (board g)) →
  text_fg_bg (set_board g b') p = text_fg_bg g p.
Proof.
  intros HM Ho Hn Hf He. unfold text_fg_bg. simpl. rewrite HM, Hn.
  repeat case_decide; try tauto; done.
Qed.

Lemma refresh_each_board g l : board (refresh_each g l).1 = board g.
Proof.
  revert g. induction l as [|xy l IH]; intros g; [done|]. simpl.
  pose proof (refresh_board g xy) as Hb.
  destruct (refresh g xy) as [g' [[]|e]]; simpl in *; [|done].
  by rewrite IH.
Qed.

Lemma refresh_each_fine g l :
  (∀ p, p ∈ l → is_Some (squares g !! p)
               ∧ ∃ text fg bg, text_fg_bg g p = Fine (text, fg, bg)) →
  (refresh_each g l).2 = Fine ()
  ∧ redrawn (list_to_set l) g (refresh_each g l).1
  ∧ (¬ 0 < empty_remaining (board g) →
     window_title (refresh_each g l).1 = window_title g).
Proof.
  revert g. induction l as [|xy l IH]; intros g Hl.
  - simpl. split_and!; [done|apply redrawn_refl|done].
  - destruct (Hl xy) as [[w Hw] (text & fg & bg & Ht)]; [by left|].
    pose proof (refresh_fine g xy w text fg bg Hw Ht) as [Hfine Hred].
    pose proof (refresh_title g xy Hfine) as Htitle.
    pose proof Hred as (Hb & Hd & Hk & _ & _).
    simpl. destruct (refresh g xy) as [g' [[]|e]]; simpl in *; [|done].
    destruct (IH g') as (Hfine' & Hred' & Htitle').
    { intros p Hp. destruct (Hl p) as [Hsome Htext]; [by right|]. split.
      - by rewrite <-elem_of_dom, Hk, elem_of_dom.
      - by rewrite (text_fg_bg_ext g g'). }
    split_and!; [done| |].
    + by eapply redrawn_trans.
    + intros Hneg. rewrite Htitle' by by rewrite Hb.
      rewrite Htitle. by rewrite decide_False.
Qed.

(** *** The wrapper and the board *)

Lemma gui_flag_board g xy : board (gui_flag g xy).1 = flag (board g) xy.
Proof. unfold gui_flag. by rewrite refresh_board. Qed.

Lemma gui_win_board g : board (gui_win g).1 = board g.
Proof. unfold gui_win. by rewrite refresh_each_board. Qed.

Lemma open_dispatched_board g xy :
  board (open_dispatched g xy).1 = (open (board g) xy).1.
Proof.
  unfold open_dispatched, open. case_decide; [done|]. simpl.
  case_decide; simpl.
  - match goal with |- context [gui_flag ?g0 xy] =>
      pose proof (gui_flag_board g0 xy) as Hb;
      destruct (gui_flag g0 xy) as [g' [[]|e]] end; simpl in *; by rewrite Hb.
  - destruct (neighbours (board g) !! xy); simpl; [|done].
    case_decide; simpl; [|done]. by rewrite gui_win_board.
Qed.

Lemma gui_open_board g xy : board (gui_open g xy).1 = (open (board g) xy).1.
Proof.
  unfold gui_open. pose proof (open_dispatched_board g xy) as Hb.
  destruct (open_dispatched g xy) as [g' [[]|e]]; simpl in *; [|done].
  by rewrite refresh_board.
Qed.

Lemma gui_right_clicked_board g xy :
  board (gui_right_clicked g xy).1 = right_clicked (board g) xy.
Proof.
  unfold gui_right_clicked, right_clicked.
  case_decide; [apply gui_flag_board|].
  case_decide; [done|]. rewrite decide_True by tauto.
  by rewrite refresh_board.
Qed.

Lemma gui_step_board g c : board (gui_step g c).1 = (step (board g) c).1.
Proof.
  destruct c; simpl;
    auto using gui_open_board, gui_flag_board, gui_right_clicked_board.
Qed.

Lemma gui_run_board g cs : board (gui_run g cs) = run (board g) cs.
Proof.
  revert g. induction cs as [|c cs IH]; intros g; [done|].
  unfold gui_run, run in *. simpl. by rewrite IH, gui_step_board.
Qed.

End Wrapper.

Section Calls.

Implicit Types (g : MineSweeperGUI) (b : MineSweeper) (xy p : coord)
  (c : call) (w : button).

Lemma counted_step b c : sound b → counted b → counted (step b c).1.
Proof.
  intros Hb [Hle|Hnone].
  - left. rewrite step_unopened_safe by done.
    destruct c as [xy|xy|xy]; simpl;
      [|rewrite difference_empty_L; try done;
        unfold right_clicked; by repeat case_decide..].
    rewrite open_empty_remaining by done. case_decide as Hin.
    + rewrite size_difference, size_singleton
        by by apply singleton_subseteq_l.
      assert (size (unopened_safe b) ≠ 0%nat); [|lia].
      apply size_non_empty_iff. intros He. by apply He in Hin.
    + assert (unopened_safe b ∖ {[ xy ]} = unopened_safe b) as ->; [|done].
      apply set_eq. intros p. rewrite elem_of_difference, elem_of_singleton.
      split; [tauto|]. intros Hp. split; [done|]. by intros ->.
  - right. by pose proof (step_same b c) as (_ & _ & -> & _).
Qed.

Lemma counted_over b : counted b → empty_remaining b ≤ 0 → unopened_safe b = ∅.
Proof.
  intros [Hle|Hnone] Hneg.
  - apply size_zero_empty. lia.
  - by apply unopened_safe_no_square.
Qed.

Lemma ready_set_board g b' :
  ready g → sound b' → same_board (board g) b' → ready (set_board g b').
Proof.
  intros (Hb & Hk & Hbg) Hb' (_ & _ & HX & _). unfold ready. simpl.
  rewrite HX. by split_and!.
Qed.

Lemma ready_message g t : ready g → ready (gui_message g t).
Proof. done. Qed.

Lemma ready_redrawn S g g' : ready g → redrawn S g g' → ready g'.
Proof.
  intros (Hb & Hk & Hbg) (Hb' & Hd' & Hk' & _). unfold ready.
  rewrite Hb', Hd', Hk'. by split_and!.
Qed.

Lemma refresh_ready g xy :
  ready g → xy ∈ xys (board g) →
  (refresh g xy).2 = Fine () ∧ redrawn {[ xy ]} g (refresh g xy).1.
Proof.
  intros (Hb & Hk & Hbg) Hxy.
  assert (is_Some (squares g !! xy)) as [w Hw]
    by by rewrite <-elem_of_dom, Hk.
  destruct (text_fg_bg_fine g xy) as (text & fg & bg & Ht); [done..| |].
  { apply Hbg. intros He. rewrite He in Hxy. by apply not_elem_of_empty in Hxy. }
  by eapply refresh_fine.
Qed.

Lemma refresh_outside g xy :
  ready g → xy ∉ xys (board g) → refresh g xy = (g, Broke (Py KeyError)).
Proof.
  intros (Hb & Hk & Hbg) Hxy. apply refresh_missing.
  by rewrite <-not_elem_of_dom, Hk.
Qed.

Lemma refresh_each_ready g l :
  ready g → (∀ p, p ∈ l → p ∈ xys (board g)) →
  (refresh_each g l).2 = Fine ()
  ∧ redrawn (list_to_set l) g (refresh_each g l).1
  ∧ (¬ 0 < empty_remaining (board g) →
     window_title (refresh_each g l).1 = window_title g).
Proof.
  intros (Hb & Hk & Hbg) Hl. apply refresh_each_fine. intros p Hp%Hl. split.
  - by rewrite <-elem_of_dom, Hk.
  - apply text_fg_bg_fine; [done..|]. apply Hbg. intros He.
    rewrite He in Hp. by apply not_elem_of_empty in Hp.
Qed.

(** What a call leaves alone on the button of [p]. *)
Lemma undisturbed_flags g b' xy p :
  same_but_flags (board g) b' →
  (∀ q, q ≠ xy → q ∈ flagged b' ↔ q ∈ flagged (board g)) →
  p ≠ xy →
  text_fg_bg (set_board g b') p = text_fg_bg g p
  ∧ (p ∈ opened b' → p ∈ opened (board g)).
Proof.
  intros ((_ & _ & _ & _ & HM) & He & Ho & Hn) Hf Hne. split.
  - apply text_fg_bg_local; rewrite ?Ho, ?Hn, ?He; auto.
  - by rewrite Ho.
Qed.

Lemma gui_sound_ready g : gui_sound g → ready g.
Proof. intros [? ? ? ? ?]. by split_and!. Qed.

Lemma gui_sound_after g b' S g' :
  gui_sound g → sound b' → same_board (board g) b' → counted b' →
  redrawn S (set_board g b') g' →
  (∀ p, p ∈ dom (squares g) → p ∉ S →
        text_fg_bg (set_board g b') p = text_fg_bg g p
        ∧ (p ∈ opened b' → p ∈ opened (board g))) →
  gui_sound g'.
Proof.
  intros [Hb Hk Hbg Hc Hs] Hb' Hsame Hc' (Hb2 & Hd2 & Hk2 & Hin & Hout) Hleft.
  simpl in *. pose proof Hsame as (_ & _ & HX & _).
  split;
    [by rewrite Hb2|by rewrite Hb2, Hk2, HX|by rewrite Hb2, Hd2, HX
    |rewrite Hb2; exact Hc'|].
  intros xy w Hw. destruct (decide (xy ∈ S)) as [|Hn]; [by apply Hin|].
  rewrite Hout in Hw by done.
  destruct (Hleft xy) as [Ht Ho]; [by apply elem_of_dom|done|].
  destruct (Hs xy w Hw) as (text & fg & bg & Ht' & ? & ? & ? & Hr).
  exists text, fg, bg.
  rewrite (text_fg_bg_ext (set_board g b') g'), Ht, Hb2 by done.
  split_and!; auto.
Qed.

End Calls.

Section Effects.

Implicit Types (g : MineSweeperGUI) (b : MineSweeper) (xy p : coord)
  (c : call) (w : button).

Lemma set_board_id g : set_board g (board g) = g.
Proof. by destruct g. Qed.

Lemma gui_flag_effect g xy :
  gui_sound g →
  ∃ S : gset coord,
    redrawn S (set_board g (flag (board g) xy)) (gui_flag g xy).1
    ∧ (∀ p, p ∈ dom (squares g) → p ∉ S →
            text_fg_bg (set_board g (flag (board g) xy)) p = text_fg_bg g p
            ∧ (p ∈ opened (flag (board g) xy) → p ∈ opened (board g)))
    ∧ (gui_flag g xy).2 =
        (if decide (xy ∈ xys (board g)) then Fine () else Broke (Py KeyError)).
Proof.
  intros Hg. pose proof (gui_sound_ready g Hg) as Hr.
  pose proof Hr as (Hb & Hk & _).
  assert (ready (set_board g (flag (board g) xy))) as Hr'
    by (apply ready_set_board; auto using flag_sound, flag_same).
  assert (∀ p, p ≠ xy →
            text_fg_bg (set_board g (flag (board g) xy)) p = text_fg_bg g p
            ∧ (p ∈ opened (flag (board g) xy) → p ∈ opened (board g))) as Hne.
  { intros p Hp. apply (undisturbed_flags g _ xy);
      [apply flag_same_but_flags| |done].
    intros q Hq. simpl. rewrite elem_of_union, elem_of_singleton. tauto. }
  unfold gui_flag. case_decide as Hxy.
  - destruct (refresh_ready _ xy Hr' Hxy) as [Hfine Hred].
    exists {[ xy ]}. split_and!; [done| |done].
    intros p _ Hp. apply Hne. intros ->. by apply Hp, elem_of_singleton.
  - rewrite (refresh_outside _ xy Hr' Hxy). exists ∅.
    split_and!; [apply redrawn_refl| |done].
    intros p Hp _. apply Hne. intros ->. apply Hxy. by rewrite <-Hk.
Qed.

Lemma gui_right_clicked_effect g xy :
  gui_sound g →
  ∃ S : gset coord,
    redrawn S (set_board g (right_clicked (board g) xy))
      (gui_right_clicked g xy).1
    ∧ (∀ p, p ∈ dom (squares g) → p ∉ S →
            text_fg_bg (set_board g (right_clicked (board g) xy)) p
            = text_fg_bg g p
            ∧ (p ∈ opened (right_clicked (board g) xy) → p ∈ opened (board g)))
    ∧ (gui_right_clicked g xy).2 =
        (if decide (xy ∈ xys (board g)) then Fine () else Broke (Py KeyError)).
Proof.
  intros Hg. pose proof (gui_sound_ready g Hg) as Hr.
  pose proof Hr as (Hb & Hk & _).
  unfold gui_right_clicked, right_clicked.
  case_decide as Hf; [by apply gui_flag_effect|].
  case_decide as Hd.
  - exists ∅. rewrite set_board_id. split_and!; [apply redrawn_refl|done|].
    simpl. rewrite decide_True; [done|].
    apply (sound_mines _ Hb). tauto.
  - rewrite decide_True by tauto.
    set (b' := set_flagged (board g) (flagged (board g) ∖ {[ xy ]})).
    assert (same_but_flags (board g) b') as Hsbf by by repeat split.
    assert (ready (set_board g b')) as Hr'.
    { apply ready_set_board; [done| |by destruct Hsbf].
      pose proof (right_clicked_sound _ xy Hb) as Hs.
      unfold right_clicked in Hs.
      rewrite decide_False in Hs by (intros Hn; by apply Hn).
      by rewrite decide_False in Hs. }
    assert (∀ p, p ≠ xy →
              text_fg_bg (set_board g b') p = text_fg_bg g p
              ∧ (p ∈ opened b' → p ∈ opened (board g))) as Hne.
    { intros p Hp. apply (undisturbed_flags g _ xy); [done| |done].
      intros q Hq. simpl. rewrite elem_of_difference, elem_of_singleton.
      tauto. }
    case_decide as Hxy.
    + destruct (refresh_ready _ xy Hr' Hxy) as [Hfine Hred].
      exists {[ xy ]}. split_and!; [done| |done].
      intros p _ Hp. apply Hne. intros ->. by apply Hp, elem_of_singleton.
    + rewrite (refresh_outside _ xy Hr' Hxy). exists ∅.
      split_and!; [apply redrawn_refl| |done].
      intros p Hp _. apply Hne. intros ->. apply Hxy. by rewrite <-Hk.
Qed.

End Effects.

Section OpenEffect.

Implicit Types (g : MineSweeperGUI) (b : MineSweeper) (xy p : coord)
  (c : call) (w : button).

Lemma undisturbed_open g xy p :
  gui_sound g → p ≠ xy →
  (p ∉ opened (board g) →
   0 < empty_remaining (open (board g) xy).1 ↔ 0 < empty_remaining (board g)) →
  text_fg_bg (set_board g (open (board g) xy).1) p = text_fg_bg g p
  ∧ (p ∈ opened (open (board g) xy).1 → p ∈ opened (board g)).
Proof.
  intros Hg Hne He. pose proof (gui_sound_board g Hg) as Hb.
  assert (p ∈ opened (open (board g) xy).1 ↔ p ∈ opened (board g)) as Ho.
  { rewrite open_opened_field, elem_of_union, elem_of_singleton. tauto. }
  split; [|by rewrite Ho]. apply text_fg_bg_local.
  - by pose proof (open_same (board g) xy) as (_ & _ & _ & _ & ->).
  - done.
  - rewrite open_mines_near_field by done.
    case_decide; [|done]. by rewrite lookup_insert_ne.
  - rewrite open_flagged_field by done.
    repeat case_decide;
      rewrite ?elem_of_union, ?elem_of_difference, ?elem_of_singleton; tauto.
  - done.
Qed.

Lemma gui_open_effect g xy :
  gui_sound g →
  ∃ S : gset coord,
    redrawn S (set_board g (open (board g) xy).1) (gui_open g xy).1
    ∧ (∀ p, p ∈ dom (squares g) → p ∉ S →
            text_fg_bg (set_board g (open (board g) xy).1) p = text_fg_bg g p
            ∧ (p ∈ opened (open (board g) xy).1 → p ∈ opened (board g)))
    ∧ (gui_open g xy).2 =
        (if decide (xy ∈ xys (board g)) then Fine () else Broke (Py KeyError))
    ∧ (xy ∈ xys (board g) →
       window_title (gui_open g xy).1 =
         title_after_open (window_title g)
           (empty_remaining (open (board g) xy).1) (open (board g) xy).2).
Proof.
  intros Hg. pose proof (gui_sound_ready g Hg) as Hr.
  pose proof Hr as (Hb & Hk & _).
  pose proof (gui_sound_count g Hg) as Hc. fold (counted (board g)) in Hc.
  pose proof (sound_xys _ Hb xy) as HX.
  pose proof (counted_step _ (Open xy) Hb Hc) as Hc'. simpl in Hc'.
  assert (ready (set_board g (open (board g) xy).1)) as Hr'
    by (apply ready_set_board; auto using open_sound, open_same).
  assert (∀ p, p ∈ dom (squares g) → p ≠ xy →
            (0 < empty_remaining (open (board g) xy).1
             ∨ p ∈ opened (board g)
             ∨ p ∉ _mines (board g)
             ∨ xy ∉ unopened_safe (board g)) →
            text_fg_bg (set_board g (open (board g) xy).1) p = text_fg_bg g p
            ∧ (p ∈ opened (open (board g) xy).1 → p ∈ opened (board g)))
    as Hleft.
  { intros p Hp Hne Hcase. apply undisturbed_open; [done..|]. intros Hpo.
    rewrite open_empty_remaining by done. case_decide as Hin; [|done].
    split; [lia|]. intros Hpos.
    destruct Hcase as [Hcase|[?|[Hpm|?]]]; [|done| |done].
    { by rewrite open_empty_remaining, decide_True in Hcase. }
    destruct (decide (0 < empty_remaining (board g) - 1)) as [|Hover]; [done|].
    exfalso.
    pose proof (counted_over _ Hc') as Hnone.
    rewrite open_empty_remaining, decide_True in Hnone by done.
    rewrite open_unopened_safe in Hnone by done.
    assert (p ∈ unopened_safe (board g) ∖ {[ xy ]}) as Hu.
    { unfold unopened_safe.
      rewrite !elem_of_difference, elem_of_singleton, <-Hk. tauto. }
    rewrite Hnone in Hu by lia. by apply not_elem_of_empty in Hu. }
  unfold gui_open, open_dispatched.
  destruct (decide (xy ∈ opened (board g))) as [Ho|Ho].
  { (* an opened square: only the redrawing *)
    revert Hr' Hleft. rewrite (open_opened _ _ Ho). simpl.
    rewrite set_board_id. intros _ Hleft.
    case_decide as Hxy.
    - destruct (refresh_ready g xy Hr Hxy) as [Hfine Hred].
      exists {[ xy ]}. split_and!; [done| |done|].
      + intros p Hp Hn. by split.
      + intros _. rewrite refresh_title by done.
        unfold title_after_open. by case_decide.
    - rewrite (refresh_outside g xy Hr Hxy). exists ∅.
      split_and!; [apply redrawn_refl| |done|done].
      intros p Hp Hn. by split. }
  simpl. destruct (decide (xy ∈ _mines (board g))) as [Hm|Hm].
  { (* a mine *)
    assert (xy ∈ xys (board g)) as Hxy by by apply (sound_mines _ Hb).
    revert Hr' Hleft Hc'. rewrite (open_mine _ _ Ho Hm). simpl.
    set (b' := flag (set_mines_near
                       (set_opened (board g) ({[ xy ]} ∪ opened (board g)))
                       (<[xy := Mine]> (mines_near (board g)))) xy).
    intros Hr' Hleft Hc'. rewrite decide_True by done.
    change (gui_flag _ xy) with (refresh (set_board g b') xy).
    destruct (refresh_ready _ xy Hr' Hxy) as [Hfine1 Hred1].
    destruct (refresh (set_board g b') xy) as [g1 r1]. simpl in Hfine1, Hred1.
    subst r1.
    assert (ready (gui_lose g1)) as Hr1
      by (apply ready_message; by eapply ready_redrawn).
    pose proof Hred1 as (Hb1 & _). simpl in Hb1.
    assert (xy ∈ xys (board (gui_lose g1))) as Hxy1 by (simpl; by rewrite Hb1).
    destruct (refresh_ready _ xy Hr1 Hxy1) as [Hfine2 Hred2].
    exists ({[ xy ]} ∪ {[ xy ]}). split_and!.
    - eapply redrawn_trans; [by apply redrawn_message|done].
    - intros p Hp Hn. apply Hleft; [done| |].
      + intros ->. apply Hn, elem_of_union_l. by apply elem_of_singleton.
      + right. right. right. unfold unopened_safe.
        rewrite !elem_of_difference. tauto.
    - done.
    - intros _. rewrite refresh_title by done. simpl. rewrite Hb1.
      unfold title_after_open. simpl. by case_decide. }
  pose proof (lookup_neighbours _ xy Hb) as Hn. case_decide as Hin.
  2:{ (* outside the board *)
    revert Hr' Hleft. rewrite (open_KeyError _ _ Ho Hm Hn). simpl.
    intros Hr' Hleft. rewrite Hn. rewrite decide_False by tauto.
    exists ∅. split_and!; [apply redrawn_refl| |done|tauto].
    intros p Hp _. apply Hleft; [done| |].
    - intros ->. apply Hin, HX. by rewrite <-Hk.
    - right. right. right. unfold unopened_safe.
      rewrite !elem_of_difference. tauto. }
  (* a safe square of the board *)
  assert (xy ∈ xys (board g)) as Hxy by by apply HX.
  revert Hr' Hleft Hc'. rewrite (open_safe _ _ _ Ho Hm Hn). simpl.
  rewrite Hn. simpl.
  set (b' := opened_safe (board g) xy (neighbours_of (xys (board g)) xy)).
  intros Hr' Hleft Hc'.
  rewrite (decide_True (P := xy ∈ xys (board g))) by done.
  change (set_board (set_board g _) _) with (set_board g b').
  destruct (decide (empty_remaining (board g) - 1 ≤ 0)) as [Hover|Hplay].
  - unfold gui_win.
    set (g0 := gui_message (set_board g b') _).
    assert (ready g0) as Hr0 by by apply ready_message.
    destruct (refresh_each_ready g0
                (elements (_mines (board g0) ∖ opened (board g0))) Hr0)
      as (Hfine1 & Hred1 & Htitle1).
    { intros p [Hp _]%elem_of_elements%elem_of_difference.
      by apply (sound_mines _ Hb). }
    destruct (refresh_each g0 _) as [g1 r1]. simpl in Hfine1, Hred1, Htitle1.
    subst r1.
    assert (ready g1) as Hr1 by by eapply ready_redrawn.
    pose proof Hred1 as (Hb1 & _). simpl in Hb1.
    assert (xy ∈ xys (board g1)) as Hxy1 by by rewrite Hb1.
    destruct (refresh_ready _ xy Hr1 Hxy1) as [Hfine2 Hred2].
    exists (list_to_set (elements (_mines b' ∖ opened b')) ∪ {[ xy ]}).
    split_and!.
    + eapply redrawn_trans; [|done].
      destruct Hred1 as (? & ? & ? & ? & ?). by split_and!.
    + intros p Hp Hnot. rewrite elem_of_union, elem_of_list_to_set,
        elem_of_elements, elem_of_difference, elem_of_singleton in Hnot.
      simpl in Hnot. rewrite elem_of_union, elem_of_singleton in Hnot.
      apply Hleft; [done|tauto|].
      right. destruct (decide (p ∈ opened (board g))); [by left|right].
      left. tauto.
    + done.
    + intros _. rewrite refresh_title by done. rewrite Hb1. simpl.
      unfold title_after_open. simpl.
      rewrite !decide_False by lia. apply Htitle1. simpl. lia.
  - destruct (refresh_ready _ xy Hr' Hxy) as [Hfine Hred].
    exists {[ xy ]}. split_and!; [done| |done|].
    + intros p Hp Hnot. apply Hleft; [done| |left; simpl; lia].
      intros ->. by apply Hnot, elem_of_singleton.
    + intros _. rewrite refresh_title by done. simpl.
      unfold title_after_open. simpl. by rewrite !decide_True by lia.
Qed.

End OpenEffect.

Section Reachable.

Implicit Types (g : MineSweeperGUI) (b : MineSweeper) (xy p : coord)
  (c : call) (w : button).

Lemma gui_step_effect g c :
  gui_sound g →
  ∃ S : gset coord,
    redrawn S (set_board g (step (board g) c).1) (gui_step g c).1
    ∧ (∀ p, p ∈ dom (squares g) → p ∉ S →
            text_fg_bg (set_board g (step (board g) c).1) p = text_fg_bg g p
            ∧ (p ∈ opened (step (board g) c).1 → p ∈ opened (board g)))
    ∧ (gui_step g c).2 =
        (if decide (target c ∈ xys (board g)) then Fine ()
         else Broke (Py KeyError)).
Proof.
  intros Hg. destruct c as [xy|xy|xy]; simpl.
  - destruct (gui_open_effect g xy Hg) as (S & ? & ? & ? & _). by exists S.
  - by apply gui_flag_effect.
  - by apply gui_right_clicked_effect.
Qed.

Lemma gui_step_sound g c : gui_sound g → gui_sound (gui_step g c).1.
Proof.
  intros Hg. destruct (gui_step_effect g c Hg) as (S & Hred & Hleft & _).
  pose proof (gui_sound_board g Hg) as Hb.
  pose proof (gui_sound_count g Hg) as Hc. fold (counted (board g)) in Hc.
  apply (gui_sound_after g (step (board g) c).1 S);
    auto using step_sound, step_same, counted_step.
Qed.

Lemma gui_run_cons g c cs : gui_run g (c :: cs) = gui_run (gui_step g c).1 cs.
Proof. done. Qed.

Lemma gui_run_sound g cs : gui_sound g → gui_sound (gui_run g cs).
Proof.
  revert g. induction cs as [|c cs IH]; intros g Hg; [done|].
  rewrite gui_run_cons. auto using gui_step_sound.
Qed.

Lemma gui_step_default_bg g c :
  gui_sound g →
  _default_button_bg (gui_step g c).1 = _default_button_bg g.
Proof.
  intros Hg. by destruct (gui_step_effect g c Hg) as (S & (_ & ? & _) & _).
Qed.

Lemma gui_run_default_bg g cs :
  gui_sound g → _default_button_bg (gui_run g cs) = _default_button_bg g.
Proof.
  revert g. induction cs as [|c cs IH]; intros g Hg; [done|].
  rewrite gui_run_cons, IH by by apply gui_step_sound.
  by apply gui_step_default_bg.
Qed.

(** *** The constructor *)

Lemma init_counted tape (cols rws : Z) d b :
  init tape cols rws d = Some (Ok b) → counted b.
Proof.
  intros Hb. destruct (decide (0 ≤ cols ∧ 0 ≤ rws)) as [[Hc Hr]|Hneg];
    [|right; by eapply empty_board].
  pose proof Hb as (n & mines & Hn & Hpl & Hrec)%init_Ok.
  destruct (decide (0 ≤ n)) as [Hpos|Hnegn].
  - left. by rewrite (init_balanced _ _ _ _ _ _ Hc Hr Hn Hpos Hb).
  - left. rewrite Hrec. unfold unopened_safe. simpl.
    pose proof (size_board cols rws Hc Hr) as Hsize.
    etrans; [apply inj_le, (subseteq_size _ (list_to_set (board_cells cols rws)))|lia].
    intros p [[? _]%elem_of_difference _]%elem_of_difference. done.
Qed.

(** A button as [refresh] leaves a new button of a closed, unflagged
    square. *)
Lemma refresh_new_button tk g xy :
  sound (board g) → xy ∈ xys (board g) →
  opened (board g) = ∅ → flagged (board g) = ∅ →
  squares g !! xy = Some tk →
  _default_button_bg g = Some (b_bg tk) →
  (refresh g xy).2 = Fine ()
  ∧ squares (refresh g xy).1 =
      <[xy := config tk " " None
                (if decide (0 < empty_remaining (board g)) then b_bg tk
                 else "green")]> (squares g).
Proof.
  intros Hb Hxy Ho Hf Hw Hd. unfold refresh. rewrite Hw.
  unfold text_fg_bg. rewrite Ho, Hf, Hd.
  rewrite !(decide_False (P := xy ∈ ∅)) by apply not_elem_of_empty.
  by repeat case_decide.
Qed.

Lemma build_squares_spec tk g l :
  sound (board g) → opened (board g) = ∅ → flagged (board g) = ∅ →
  NoDup l → (∀ p, p ∈ l → p ∈ xys (board g) ∧ squares g !! p = None) →
  (∀ p w, squares g !! p = Some w → _default_button_bg g = Some (b_bg tk)) →
  (build_squares tk g l).2 = Fine ()
  ∧ board (build_squares tk g l).1 = board g
  ∧ (∀ p, squares (build_squares tk g l).1 !! p =
          if decide (p ∈ l)
          then Some (config tk " " None
                       (if decide (0 < empty_remaining (board g)) then b_bg tk
                        else "green"))
          else squares g !! p)
  ∧ (l ≠ [] → _default_button_bg (build_squares tk g l).1 = Some (b_bg tk))
  ∧ (l = [] → (build_squares tk g l).1 = g)
  ∧ (l ≠ [] →
     window_title (build_squares tk g l).1 =
       if decide (0 < empty_remaining (board g))
       then LeftToOpen (empty_remaining (board g)) else window_title g).
Proof.
  revert g. induction l as [|xy l IH]; intros g Hb Ho Hf Hnd Hl Hd.
  - simpl. split_and!; try done;
      intros p; by rewrite decide_False by by inversion 1.
  - apply NoDup_cons in Hnd as [Hxy Hnd].
    destruct (Hl xy) as [Hin Hnone]; [by left|]. simpl.
    set (g1 := set_default_button_bg
                 (set_squares g (<[xy := tk]> (squares g))) (b_bg tk)).
    destruct (refresh_new_button tk g1 xy) as [Hfine Hsq];
      [done..|apply lookup_insert_eq|done|].
    pose proof (refresh_board g1 xy) as Hb1.
    pose proof (refresh_default_bg g1 xy) as Hd1.
    pose proof (refresh_title g1 xy Hfine) as Ht1.
    destruct (refresh g1 xy) as [g2 r2]. simpl in *. subst r2.
    destruct (IH g2) as (Hfine' & Hb' & Hsq' & Hd' & Hnil' & Ht');
      [by rewrite Hb1..|done| | |].
    { intros p Hp. rewrite Hb1. destruct (Hl p) as [? ?]; [by right|].
      split; [done|]. rewrite Hsq, insert_insert_eq, lookup_insert_ne; [done|].
      by intros ->. }
    { intros p w _. by rewrite Hd1. }
    rewrite Hb1 in *. split_and!; [done|done| | | |].
    + intros p. rewrite Hsq'. rewrite Hsq, insert_insert_eq.
      destruct (decide (p = xy)) as [->|Hne].
      * rewrite (decide_False (P := xy ∈ l)) by done.
        rewrite (decide_True (P := xy ∈ xy :: l)) by (apply elem_of_cons; by left).
        by rewrite lookup_insert_eq.
      * rewrite lookup_insert_ne by done.
        apply option_eq. intros w. repeat case_decide; try done;
          exfalso; rewrite elem_of_cons in *; tauto.
    + intros _. destruct l as [|q l]; [by rewrite Hnil', Hd1|].
      by apply Hd'.
    + done.
    + intros _. destruct l as [|q l].
      * rewrite Hnil' by done. rewrite Ht1. by case_decide.
      * rewrite Ht' by done. rewrite Ht1. by repeat case_decide.
Qed.

Lemma gui_eq g g' :
  board g = board g' → squares g = squares g' →
  window_title g = window_title g' →
  _default_button_bg g = _default_button_bg g' → g = g'.
Proof. destruct g, g'; simpl; by intros -> -> -> ->. Qed.

Lemma build_squares_fresh tk b l :
  sound b → opened b = ∅ → flagged b = ∅ → l ≡ₚ elements (xys b) →
  build_squares tk
    {| board := b; squares := ∅; window_title := TkTitle;
       _default_button_bg := None |} l
  = (fresh_gui tk b, Fine ()).
Proof.
  intros Hs Ho Hf Hl.
  set (g0 := {| board := b; squares := ∅; window_title := TkTitle;
                _default_button_bg := None |}).
  assert (∀ p, p ∈ l ↔ p ∈ xys b) as Hin
    by (intros p; by rewrite Hl, elem_of_elements).
  assert (l = [] ↔ xys b = ∅) as Hnil'.
  { split.
    - intros ->. apply set_eq. intros p. rewrite <-Hin.
      split; [by intros ?%elem_of_nil|by intros ?%not_elem_of_empty].
    - intros Hnone. destruct l as [|p l]; [done|].
      exfalso. apply (not_elem_of_empty (C := gset coord) p).
      rewrite <-Hnone. apply Hin. by left. }
  destruct (build_squares_spec tk g0 l)
    as (Hfine & Hb' & Hsq & Hd & Hnil & Ht); try done.
  { rewrite Hl. apply NoDup_elements. }
  { intros p Hp%Hin. by split; [|apply lookup_empty]. }
  destruct (build_squares tk g0 l) as [g r].
  simpl in *. subst r. f_equal. apply gui_eq; simpl.
  - done.
  - apply map_eq. intros p. rewrite Hsq, lookup_gset_to_gmap.
    destruct (decide (p ∈ l)) as [Hp|Hp]; rewrite Hin in Hp.
    + by rewrite option_guard_True.
    + by rewrite option_guard_False, lookup_empty.
  - destruct (decide (xys b = ∅)) as [Hnone|Hsome].
    + rewrite Hnil by by apply Hnil'. simpl.
      rewrite decide_False; [done|tauto].
    + rewrite Ht by (by intros ?%Hnil').
      by repeat case_decide; try tauto.
  - destruct (decide (xys b = ∅)) as [Hnone|Hsome].
    + by rewrite Hnil by by apply Hnil'.
    + by rewrite Hd by (by intros ?%Hnil').
Qed.

Lemma gui_init_fresh tk tape (cols rws : Z) d b :
  init tape cols rws d = Some (Ok b) →
  gui_init tk tape cols rws d = Some (Fine (fresh_gui tk b)).
Proof.
  intros Hb. unfold gui_init. rewrite Hb.
  pose proof (init_sound _ _ _ _ _ Hb) as Hs.
  pose proof (init_fresh _ _ _ _ _ Hb) as (_ & _ & Ho & Hf & _).
  by rewrite (build_squares_fresh tk b (elements (xys b))).
Qed.

Lemma fresh_gui_sound tk tape (cols rws : Z) d b :
  init tape cols rws d = Some (Ok b) → gui_sound (fresh_gui tk b).
Proof.
  intros Hb.
  pose proof (init_sound _ _ _ _ _ Hb) as Hs.
  pose proof (init_fresh _ _ _ _ _ Hb) as (_ & _ & Ho & Hf & _).
  split; simpl.
  - done.
  - by rewrite dom_gset_to_gmap.
  - intros Hsome. by rewrite decide_False.
  - by apply (init_counted tape cols rws d).
  - intros xy w [Hxy <-]%lookup_gset_to_gmap_Some.
    unfold up_to_date, text_fg_bg. simpl. rewrite Ho, Hf.
    rewrite !(decide_False (P := xy ∈ ∅)) by apply not_elem_of_empty.
    rewrite (decide_False (P := xys b = ∅))
      by (intros Hnone; rewrite Hnone in Hxy; by apply not_elem_of_empty in Hxy).
    destruct (decide (0 < empty_remaining b)); eexists _, _, _;
      (split; [done|]); split_and!; try done;
      intros Hin; by apply not_elem_of_empty in Hin.
Qed.

Lemma fresh_gui_default_bg tk b xy :
  xy ∈ xys b → _default_button_bg (fresh_gui tk b) = Some (b_bg tk).
Proof.
  intros Hxy. simpl. rewrite decide_False; [done|].
  intros Hnone. rewrite Hnone in Hxy. by apply not_elem_of_empty in Hxy.
Qed.

End Reachable.

Section Title.

Implicit Types (g : MineSweeperGUI) (b : MineSweeper) (xy p : coord)
  (c : call) (w : button).

Lemma refresh_title_ok g xy :
  (0 < empty_remaining (board g) →
   window_title g = LeftToOpen (empty_remaining (board g))) →
  0 < empty_remaining (board (refresh g xy).1) →
  window_title (refresh g xy).1 =
    LeftToOpen (empty_remaining (board (refresh g xy).1)).
Proof.
  intros Hok. rewrite refresh_board. intros Hpos.
  destruct (refresh g xy).2 as [[]|e] eqn:Hr.
  - rewrite refresh_title by done. by rewrite decide_True.
  - rewrite (refresh_broke_title g xy e Hr). auto.
Qed.

Lemma gui_open_outside g xy :
  gui_sound g → xy ∉ xys (board g) →
  window_title (gui_open g xy).1 = window_title g
  ∧ empty_remaining (board (gui_open g xy).1) = empty_remaining (board g).
Proof.
  intros Hg Hxy. pose proof (gui_sound_board g Hg) as Hb. split.
  - unfold gui_open, open_dispatched.
    destruct (decide (xy ∈ opened (board g))).
    + rewrite refresh_outside; [done|by apply gui_sound_ready|done].
    + simpl.
      rewrite decide_False
        by (intros Hm; apply Hxy, (sound_mines _ Hb), Hm).
      rewrite lookup_neighbours by done.
      rewrite decide_False; [done|]. by rewrite <-(sound_xys _ Hb).
  - rewrite gui_open_board, open_empty_remaining by done.
    rewrite decide_False; [done|]. unfold unopened_safe.
    rewrite !elem_of_difference. tauto.
Qed.

Lemma gui_step_title g c :
  gui_sound g →
  (0 < empty_remaining (board g) →
   window_title g = LeftToOpen (empty_remaining (board g))) →
  0 < empty_remaining (board (gui_step g c).1) →
  window_title (gui_step g c).1 =
    LeftToOpen (empty_remaining (board (gui_step g c).1)).
Proof.
  intros Hg Hok. destruct c as [xy|xy|xy]; simpl.
  - destruct (decide (xy ∈ xys (board g))) as [Hxy|Hxy].
    + destruct (gui_open_effect g xy Hg) as (S & _ & _ & _ & Ht).
      rewrite gui_open_board, (Ht Hxy). unfold title_after_open.
      intros Hpos. by rewrite decide_True.
    + by destruct (gui_open_outside g xy Hg Hxy) as [-> ->].
  - unfold gui_flag. by apply refresh_title_ok.
  - unfold gui_right_clicked. repeat case_decide; try done.
    + unfold gui_flag. by apply refresh_title_ok.
    + by apply refresh_title_ok.
Qed.

Lemma gui_run_title g cs :
  gui_sound g →
  (0 < empty_remaining (board g) →
   window_title g = LeftToOpen (empty_remaining (board g))) →
  0 < empty_remaining (board (gui_run g cs)) →
  window_title (gui_run g cs) =
    LeftToOpen (empty_remaining (board (gui_run g cs))).
Proof.
  revert g. induction cs as [|c cs IH]; intros g Hg Hok; [done|].
  rewrite gui_run_cons. apply IH; [by apply gui_step_sound|].
  by apply gui_step_title.
Qed.

Lemma gui_init_Fine tk tape (cols rws : Z) d g0 :
  gui_init tk tape cols rws d = Some (Fine g0) →
  ∃ b, init tape cols rws d = Some (Ok b) ∧ g0 = fresh_gui tk b.
Proof.
  destruct (init tape cols rws d) as [[b|e]|] eqn:Hb.
  - rewrite (gui_init_fresh tk _ _ _ _ _ Hb). intros [= <-]. eauto.
  - unfold gui_init. by rewrite Hb.
  - unfold gui_init. by rewrite Hb.
Qed.

Lemma reachable_sound tk tape (cols rws : Z) d g0 cs :
  gui_init tk tape cols rws d = Some (Fine g0) →
  gui_sound (gui_run g0 cs)
  ∧ same_board (board g0) (board (gui_run g0 cs))
  ∧ (∀ xy, in_bounds (board g0) xy →
       xy ∈ xys (board (gui_run g0 cs))
       ∧ _default_button_bg (gui_run g0 cs) = Some (b_bg tk)).
Proof.
  intros (b & Hb & ->)%gui_init_Fine.
  pose proof (fresh_gui_sound tk _ _ _ _ _ Hb) as Hg0.
  pose proof (gui_run_sound _ cs Hg0) as Hg.
  assert (same_board b (board (gui_run (fresh_gui tk b) cs))) as Hsame
    by (rewrite gui_run_board; apply run_same).
  split_and!; [done|done|]. intros xy Hxy. simpl in Hxy.
  pose proof Hsame as (_ & _ & HX & _).
  apply (sound_xys _ (gui_sound_board _ Hg0)) in Hxy. simpl in Hxy.
  split; [by rewrite HX|].
  rewrite gui_run_default_bg by done. by apply (fresh_gui_default_bg tk b xy).
Qed.

End Title.

Section RoundTrip.

Implicit Types (g : MineSweeperGUI) (b : MineSweeper) (xy p : coord)
  (c : call) (w : button).

Lemma right_clicked_twice b xy :
  opened b ∩ _mines b ⊆ flagged b →
  right_clicked (right_clicked b xy) xy = b.
Proof.
  intros Hdead.
  pose proof (right_clicked_same_but_flags b xy) as H1.
  pose proof (right_clicked_same_but_flags (right_clicked b xy) xy) as H2.
  pose proof (same_but_flags_trans _ _ _ H1 H2) as (Hsame & He & Ho & Hn).
  apply board_eq; try done. clear H1 H2 Hsame He Ho Hn.
  unfold right_clicked. destruct (decide (xy ∉ flagged b)) as [Hf|Hf].
  - assert (¬ (xy ∈ opened b ∧ xy ∈ _mines b)) as Hd.
    { intros [Ho Hm]. apply Hf, Hdead, elem_of_intersection. done. }
    simpl. rewrite decide_False; [|intros Hn; apply Hn, elem_of_union; left;
                                    by apply elem_of_singleton].
    rewrite decide_False by done. simpl.
    apply set_eq. intros p.
    rewrite elem_of_difference, elem_of_union, elem_of_singleton.
    split; [tauto|]. intros Hp. split; [tauto|]. by intros ->.
  - apply dec_stable in Hf.
    destruct (decide (xy ∈ opened b ∧ xy ∈ _mines b)) as [Hd|Hd].
    + rewrite decide_False by (intros Hn; by apply Hn).
      by rewrite decide_True.
    + simpl. rewrite decide_True;
        [|rewrite elem_of_difference, elem_of_singleton; tauto].
      simpl. apply set_eq. intros p.
      rewrite elem_of_union, elem_of_difference, elem_of_singleton.
      destruct (decide (p = xy)) as [->|]; tauto.
Qed.

Lemma refresh_squares_ne g xy p :
  p ≠ xy → squares (refresh g xy).1 !! p = squares g !! p.
Proof.
  intros Hne. unfold refresh. destruct (squares g !! xy) eqn:Hw; [|done].
  destruct (text_fg_bg g xy) as [[[text fg] bg]|]; [|done].
  simpl. repeat case_decide; simpl; by rewrite lookup_insert_ne.
Qed.

Lemma refresh_button g xy w text fg bg :
  squares g !! xy = Some w → text_fg_bg g xy = Fine (text, fg, bg) →
  squares (refresh g xy).1 !! xy =
    Some {| b_text := text; b_fg := default (b_fg w) fg; b_bg := bg;
            b_relief := if decide (xy ∈ opened (board g)) then SUNKEN
                        else b_relief w |}.
Proof.
  intros Hw Ht. unfold refresh. rewrite Hw, Ht. simpl.
  repeat case_decide; simpl; by rewrite lookup_insert_eq.
Qed.

Lemma text_fg_bg_flags g b' xy t fg bg t' fg' bg' :
  same_but_flags (board g) b' →
  text_fg_bg g xy = Fine (t, fg, bg) →
  text_fg_bg (set_board g b') xy = Fine (t', fg', bg') →
  fg' = fg.
Proof.
  intros ((_ & _ & _ & _ & HM) & He & Ho & Hn). unfold text_fg_bg. simpl.
  rewrite HM, He, Ho, Hn.
  destruct (mines_near (board g) !! xy) as [[]|];
    destruct (_default_button_bg g);
    repeat case_decide; congruence.
Qed.

Lemma gui_right_clicked_refresh g xy :
  ¬ (xy ∈ opened (board g) ∧ xy ∈ _mines (board g)) →
  gui_right_clicked g xy =
    refresh (set_board g (right_clicked (board g) xy)) xy.
Proof.
  intros Hd. unfold gui_right_clicked, right_clicked, gui_flag.
  destruct (decide (xy ∉ flagged (board g))) as [Hf|Hf]; [done|].
  rewrite !(decide_False (P := xy ∈ opened (board g) ∧ xy ∈ _mines (board g)))
    by done.
  rewrite decide_True; [done|]. by apply dec_stable.
Qed.

Lemma gui_right_clicked_twice g xy :
  gui_sound g →
  (xy ∈ xys (board g) → 0 < empty_remaining (board g) →
   window_title g = LeftToOpen (empty_remaining (board g))) →
  (gui_right_clicked (gui_right_clicked g xy).1 xy).1 = g.
Proof.
  intros Hg Htitle. pose proof (gui_sound_board _ Hg) as Hb.
  pose proof (gui_sound_ready _ Hg) as Hr.
  destruct (decide (xy ∈ opened (board g) ∧ xy ∈ _mines (board g)))
    as [Hd|Hd].
  { assert (gui_right_clicked g xy = (g, Fine ())) as Hsame.
    { unfold gui_right_clicked.
      rewrite decide_False;
        [|intros Hn; apply Hn, (sound_dead _ Hb), elem_of_intersection; tauto].
      by rewrite decide_True. }
    rewrite Hsame. simpl. by rewrite Hsame. }
  set (b1 := right_clicked (board g) xy).
  pose proof (right_clicked_same_but_flags (board g) xy) as Hflags.
  fold b1 in Hflags.
  pose proof Hflags as (Hsame & He & Ho & Hn).
  assert (sound b1) as Hb1 by by apply right_clicked_sound.
  assert (ready (set_board g b1)) as Hr1 by by apply ready_set_board.
  rewrite (gui_right_clicked_refresh g xy Hd). fold b1.
  set (g1 := (refresh (set_board g b1) xy).1).
  assert (board g1 = b1) as Hbg1 by apply refresh_board.
  assert (_default_button_bg g1 = _default_button_bg g) as Hdg1
    by (unfold g1; by rewrite refresh_default_bg).
  assert (right_clicked (board g1) xy = board g) as Hback
    by (rewrite Hbg1; apply right_clicked_twice, (sound_dead _ Hb)).
  rewrite gui_right_clicked_refresh
    by (rewrite Hbg1, Ho; pose proof Hsame as (_ & _ & _ & _ & ->); done).
  rewrite Hback.
  destruct (decide (xy ∈ xys (board g))) as [Hxy|Hxy].
  - assert (xy ∈ xys (board (set_board g b1))) as Hxy1
      by (simpl; by pose proof Hsame as (_ & _ & -> & _)).
    destruct (refresh_ready _ xy Hr1 Hxy1) as [Hfine1 Hred1]. fold g1 in Hred1.
    pose proof (ready_redrawn _ _ _ Hr1 Hred1) as Hrg1.
    assert (ready (set_board g1 (board g))) as Hr2.
    { apply ready_set_board; [done|done|]. rewrite Hbg1.
      pose proof Hsame as (? & ? & ? & ? & ?). by repeat split. }
    destruct (refresh_ready (set_board g1 (board g)) xy Hr2 Hxy)
      as [Hfine2 Hred2].
    assert (is_Some (squares g !! xy)) as [w Hw]
      by by rewrite <-elem_of_dom, (gui_sound_squares _ Hg).
    destruct (gui_sound_shown _ Hg xy w Hw)
      as (t & fg & bg & Ht & Htext & Hbgw & Hfg & Hrel).
    destruct (text_fg_bg_fine (set_board g b1) xy) as (t1 & fg1 & bg1 & Ht1);
      [done|done| |].
    { destruct Hr as (_ & _ & Hsome). apply Hsome.
      intros Hnone. rewrite Hnone in Hxy. by apply not_elem_of_empty in Hxy. }
    assert (fg1 = fg) as -> by by eapply text_fg_bg_flags.
    pose proof (refresh_button (set_board g b1) xy w t1 fg bg1 Hw Ht1) as Hw1.
    fold g1 in Hw1. simpl in Hw1.
    assert (text_fg_bg (set_board g1 (board g)) xy = Fine (t, fg, bg)) as Ht2
      by (rewrite <-Ht; by apply text_fg_bg_ext).
    pose proof (refresh_button (set_board g1 (board g)) xy _ t fg bg Hw1 Ht2)
      as Hw2.
    simpl in Hw2.
    apply gui_eq.
    + by rewrite refresh_board.
    + apply map_eq. intros p. destruct (decide (p = xy)) as [->|Hne].
      * rewrite Hw2, Hw. f_equal. destruct w as [wt wf wb wr].
        simpl in *. subst wt wb. rewrite Ho. f_equal.
        -- destruct fg as [c|]; simpl; [by rewrite (Hfg c)|done].
        -- destruct (decide (xy ∈ opened (board g))); [by rewrite Hrel|done].
      * rewrite refresh_squares_ne by done. simpl.
        unfold g1. by rewrite refresh_squares_ne.
    + rewrite refresh_title by done. simpl.
      unfold g1. rewrite refresh_title by done. simpl. rewrite He.
      repeat case_decide; try done; symmetry; by apply Htitle.
    + by rewrite refresh_default_bg.
  - assert (squares g !! xy = None) as Hw
      by by rewrite <-not_elem_of_dom, (gui_sound_squares _ Hg).
    unfold g1. rewrite (refresh_missing (set_board g b1)) by done. simpl.
    rewrite refresh_missing by done. simpl. by destruct g.
Qed.

Lemma refresh_idle g xy :
  gui_sound g → xy ∈ xys (board g) →
  (0 < empty_remaining (board g) →
   window_title g = LeftToOpen (empty_remaining (board g))) →
  refresh g xy = (g, Fine ()).
Proof.
  intros Hg Hxy Htitle. pose proof (gui_sound_ready _ Hg) as Hr.
  destruct (refresh_ready g xy Hr Hxy) as [Hfine _].
  assert (is_Some (squares g !! xy)) as [w Hw]
    by by rewrite <-elem_of_dom, (gui_sound_squares _ Hg).
  destruct (gui_sound_shown _ Hg xy w Hw)
    as (t & fg & bg & Ht & Htext & Hbgw & Hfg & Hrel).
  pose proof (refresh_button g xy w t fg bg Hw Ht) as Hw'.
  assert ((refresh g xy).1 = g) as Hsame.
  { apply gui_eq.
    - apply refresh_board.
    - apply map_eq. intros p. destruct (decide (p = xy)) as [->|Hne];
        [|by apply refresh_squares_ne].
      rewrite Hw', Hw. f_equal. destruct w as [wt wf wb wr].
      simpl in *. subst wt wb. f_equal.
      + destruct fg as [c|]; simpl; [by rewrite (Hfg c)|done].
      + destruct (decide (xy ∈ opened (board g))); [by rewrite Hrel|done].
    - rewrite refresh_title by done.
      destruct (decide (0 < empty_remaining (board g))); [|done].
      symmetry. by apply Htitle.
    - apply refresh_default_bg. }
  destruct (refresh g xy) as [g' r]. simpl in *. by subst.
Qed.

End RoundTrip.

Section GuiExamples.

Lemma gui_init_board_3x3 :
  gui_init plain_button [(1, 1)] 3 3 fifth
  = Some (Fine (fresh_gui plain_button board_3x3)).
Proof. apply gui_init_fresh, init_board_3x3. Qed.

End GuiExamples.

(** X14.  Where [MineSweeper.__init__] returns a board [b],
    [MineSweeperGUI.__init__] returns a window and raises nothing, and its
    loop over the squares gives the same window whatever the order in
    which it visits them: one button for each square of [b] and no other,
    each with a blank text on the background of new Tk buttons (on green
    when [empty_remaining] is not positive); the title counts the
    non-mines left when the board has a square and [empty_remaining] is
    positive, and is Tk's own otherwise. *)
Theorem gui_init_builds tk tape (cols rws : Z) d (b : MineSweeper)
    (l : list coord) :
  init tape cols rws d = Some (Ok b) →
  l ≡ₚ elements (xys b) →
  gui_init tk tape cols rws d = Some (Fine (fresh_gui tk b))
  ∧ build_squares tk
      {| board := b; squares := ∅; window_title := TkTitle;
         _default_button_bg := None |} l
    = (fresh_gui tk b, Fine ()).
Proof.
  intros Hb Hl. split; [by apply gui_init_fresh|].
  pose proof (init_fresh _ _ _ _ _ Hb) as (_ & _ & Ho & Hf & _).
  apply build_squares_fresh; eauto using init_sound.
Qed.

Lemma gui_init_builds_witness :
  gui_init plain_button [(1, 1)] 3 3 fifth
  = Some (Fine (fresh_gui plain_button board_3x3))
  ∧ build_squares plain_button
      {| board := board_3x3; squares := ∅; window_title := TkTitle;
         _default_button_bg := None |} (reverse (elements (xys board_3x3)))
    = (fresh_gui plain_button board_3x3, Fine ()).
Proof.
  apply (gui_init_builds plain_button [(1, 1)] 3 3 fifth board_3x3
           (reverse (elements (xys board_3x3)))).
  - exact init_board_3x3.
  - apply reverse_Permutation.
Defined.

(** X15.  The GUI plays the game of the core class: after any calls of
    the GUI's [open] and [flag] and of the right-click handler, raising
    or not, the board fields of the window are those that the same calls of
    [MineSweeper.open], [MineSweeper.flag] and the handler's own board
    updates give. *)
Theorem gui_plays_the_board (g : MineSweeperGUI) (cs : list call) :
  board (gui_run g cs) = run (board g) cs.
Proof. apply gui_run_board. Qed.

(** X16.  In a window that [MineSweeperGUI.__init__] returned, after any
    calls, a call of [open], [flag] or the right-click handler on a square
    of the board raises nothing, and on any other pair it raises
    [KeyError], [flag] too, which in the core class accepts every pair. *)
Theorem gui_raises_outside_only tk tape (cols rws : Z) d
    (g0 : MineSweeperGUI) (cs : list call) (c : call) :
  gui_init tk tape cols rws d = Some (Fine g0) →
  (gui_step (gui_run g0 cs) c).2 =
    if decide (in_bounds (board g0) (target c)) then Fine ()
    else Broke (Py KeyError).
Proof.
  intros Hinit.
  destruct (reachable_sound tk _ _ _ _ g0 cs Hinit) as (Hg & Hsame & _).
  destruct (gui_step_effect _ c Hg) as (S & _ & _ & ->).
  pose proof (sound_xys _ (gui_sound_board _ Hg) (target c)) as HX.
  rewrite (in_bounds_same _ _ _ Hsame) in HX.
  repeat case_decide; try done; tauto.
Qed.

Lemma gui_raises_outside_only_witness :
  (gui_step (gui_run (fresh_gui plain_button board_3x3) [Open (0, 0)])
     (Flag (3, 0))).2 =
    if decide (in_bounds (board (fresh_gui plain_button board_3x3))
                 (target (Flag (3, 0))))
    then Fine () else Broke (Py KeyError).
Proof.
  apply (gui_raises_outside_only plain_button [(1, 1)] 3 3 fifth).
  exact gui_init_board_3x3.
Defined.

(** X17.  In a window that [MineSweeperGUI.__init__] returned, after any
    calls, every square of the board has a button, and the button shows the
    state of the square: an opened mine is a skull on red, an opened safe
    square is sunken and white with the number of mines at Chebyshev
    distance 1 in the colour of that number, or blank when there is none; a
    closed square is a black flag on yellow when flagged and blank on the
    background of new buttons otherwise while [empty_remaining] is
    positive, and green, with a white flag when flagged, once it is not. *)
Theorem display_shows tk tape (cols rws : Z) d (g0 : MineSweeperGUI)
    (cs : list call) (xy : coord) :
  gui_init tk tape cols rws d = Some (Fine g0) →
  in_bounds (board g0) xy →
  let g := gui_run g0 cs in
  let b := board g in
  let k := Z.of_nat (size (filter (λ m, chebyshev m xy = 1) (_mines b))) in
  ∃ w, squares g !! xy = Some w
    ∧ (xy ∈ opened b → xy ∈ _mines b →
       b_text w = SKULL_AND_CROSSBONES ∧ b_bg w = "red"
       ∧ b_relief w = SUNKEN)
    ∧ (xy ∈ opened b → xy ∉ _mines b →
       b_bg w = "white" ∧ b_relief w = SUNKEN
       ∧ if decide (0 < k) then b_text w = pretty k ∧ b_fg w = number_fg k
         else b_text w = " ")
    ∧ (xy ∉ opened b → 0 < empty_remaining b →
       if decide (xy ∈ flagged b)
       then b_text w = BLACK_FLAG ∧ b_bg w = "yellow"
       else b_text w = " " ∧ b_bg w = b_bg tk)
    ∧ (xy ∉ opened b → empty_remaining b ≤ 0 →
       b_bg w = "green"
       ∧ b_text w = if decide (xy ∈ flagged b) then WHITE_FLAG else " ").
Proof.
  intros Hinit Hxy g b k.
  destruct (reachable_sound tk _ _ _ _ g0 cs Hinit) as (Hg & Hsame & Hin).
  destruct (Hin xy Hxy) as [HX Hbg]. fold g in Hg, HX, Hbg. fold b in HX.
  pose proof (gui_sound_board _ Hg) as Hb. fold b in Hb.
  assert (is_Some (squares g !! xy)) as [w Hw]
    by by rewrite <-elem_of_dom, (gui_sound_squares _ Hg).
  destruct (gui_sound_shown _ Hg xy w Hw)
    as (text & fg & bg & Ht & Htext & Hbgw & Hfg & Hrel).
  fold b in Hrel. exists w. split; [done|].
  unfold text_fg_bg in Ht. fold b in Ht.
  rewrite (sound_near _ Hb), Hbg in Ht. unfold near_of in Ht.
  rewrite (mines_around _ _ Hb) in Ht. fold k in Ht.
  split_and!; intros Ho Hm;
    repeat (let H := fresh "Hc" in destruct (decide _) as [H|H] in Ht);
    try (exfalso; tauto); try (exfalso; lia);
    injection Ht as <- <- <-; split_and?; auto;
    repeat case_decide; try done; try (exfalso; tauto); auto.
Qed.

Lemma display_shows_witness :
  let g := gui_run (fresh_gui plain_button board_3x3) [Open (0, 0)] in
  let b := board g in
  let k := Z.of_nat (size (filter (λ m, chebyshev m (0, 0) = 1) (_mines b))) in
  ∃ w, squares g !! (0, 0) = Some w
    ∧ ((0, 0) ∈ opened b → (0, 0) ∈ _mines b →
       b_text w = SKULL_AND_CROSSBONES ∧ b_bg w = "red"
       ∧ b_relief w = SUNKEN)
    ∧ ((0, 0) ∈ opened b → (0, 0) ∉ _mines b →
       b_bg w = "white" ∧ b_relief w = SUNKEN
       ∧ if decide (0 < k) then b_text w = pretty k ∧ b_fg w = number_fg k
         else b_text w = " ")
    ∧ ((0, 0) ∉ opened b → 0 < empty_remaining b →
       if decide ((0, 0) ∈ flagged b)
       then b_text w = BLACK_FLAG ∧ b_bg w = "yellow"
       else b_text w = " " ∧ b_bg w = b_bg plain_button)
    ∧ ((0, 0) ∉ opened b → empty_remaining b ≤ 0 →
       b_bg w = "green"
       ∧ b_text w = if decide ((0, 0) ∈ flagged b) then WHITE_FLAG else " ").
Proof.
  apply (display_shows plain_button [(1, 1)] 3 3 fifth
           (fresh_gui plain_button board_3x3) [Open (0, 0)] (0, 0)).
  - exact gui_init_board_3x3.
  - unfold in_bounds. simpl. lia.
Defined.

(** X18.  In a window that [MineSweeperGUI.__init__] returned for a board
    with a square, after any calls, the title counts the non-mines left
    for as long as [empty_remaining] is positive: the message that [lose]
    shows is replaced before the call of [open] that showed it returns. *)
Theorem title_counts tk tape (cols rws : Z) d (g0 : MineSweeperGUI)
    (cs : list call) :
  gui_init tk tape cols rws d = Some (Fine g0) →
  0 < cols → 0 < rws →
  0 < empty_remaining (board (gui_run g0 cs)) →
  window_title (gui_run g0 cs)
  = LeftToOpen (empty_remaining (board (gui_run g0 cs))).
Proof.
  intros (b & Hb & ->)%gui_init_Fine Hc Hr.
  pose proof (init_fresh _ _ _ _ _ Hb) as (Hcols & Hrows & _).
  pose proof (init_sound _ _ _ _ _ Hb) as Hs.
  apply gui_run_title; [by eapply fresh_gui_sound|].
  simpl. intros Hpos. rewrite decide_True; [done|]. split; [|done].
  assert ((0, 0) ∈ xys b) as Hin
    by (apply (sound_xys _ Hs); unfold in_bounds; simpl; lia).
  intros Hnone. rewrite Hnone in Hin. by apply not_elem_of_empty in Hin.
Qed.

Lemma title_counts_witness :
  window_title (gui_run (fresh_gui plain_button board_3x3) [Open (1, 1)])
  = LeftToOpen
      (empty_remaining
         (board (gui_run (fresh_gui plain_button board_3x3) [Open (1, 1)]))).
Proof.
  apply (title_counts plain_button [(1, 1)] 3 3 fifth).
  - exact gui_init_board_3x3.
  - lia.
  - lia.
  - rewrite gui_run_board. by vm_compute.
Defined.

(** X19.  In a window that [MineSweeperGUI.__init__] returned, after any
    calls, [open] on a square of the board leaves in the title the count of
    the non-mines left when [empty_remaining] is still positive after it;
    when it is not, the title is the message that the call showed, a win
    or a death, and the title of before when the call showed none. *)
Theorem title_after_gui_open tk tape (cols rws : Z) d (g0 : MineSweeperGUI)
    (cs : list call) (xy : coord) :
  gui_init tk tape cols rws d = Some (Fine g0) →
  in_bounds (board g0) xy →
  let g := gui_run g0 cs in
  let remaining := empty_remaining (open (board g) xy).1 in
  window_title (gui_open g xy).1 =
    if decide (0 < remaining) then LeftToOpen remaining
    else match (open (board g) xy).2 with
         | Ok [m] => Shown m
         | _ => window_title g
         end.
Proof.
  intros Hinit Hxy g remaining.
  destruct (reachable_sound tk _ _ _ _ g0 cs Hinit) as (Hg & _ & Hin).
  destruct (Hin xy Hxy) as [HX _].
  destruct (gui_open_effect _ xy Hg) as (S & _ & _ & _ & Ht).
  subst g remaining. by rewrite (Ht HX).
Qed.

Lemma title_after_gui_open_witness :
  let g := gui_run (fresh_gui plain_button board_1x2_mined) [Open (0, 1)] in
  let remaining := empty_remaining (open (board g) (0, 0)).1 in
  window_title (gui_open g (0, 0)).1 =
    if decide (0 < remaining) then LeftToOpen remaining
    else match (open (board g) (0, 0)).2 with
         | Ok [m] => Shown m
         | _ => window_title g
         end.
Proof.
  apply (title_after_gui_open plain_button [(0, 0)] 1 2 half
           (fresh_gui plain_button board_1x2_mined) [Open (0, 1)] (0, 0)).
  - apply gui_init_fresh, init_board_1x2_mined.
  - by vm_compute.
Defined.

(** X20.  In a window that [MineSweeperGUI.__init__] returned, after any
    calls, [flag] on a pair that is no square of the board raises
    [KeyError] after the pair was added to [flagged]: the flag stays, and
    no button and no title has changed. *)
Theorem gui_flag_outside_keeps_flag tk tape (cols rws : Z) d
    (g0 : MineSweeperGUI) (cs : list call) (xy : coord) :
  gui_init tk tape cols rws d = Some (Fine g0) →
  ¬ in_bounds (board g0) xy →
  let g := gui_run g0 cs in
  gui_flag g xy = (set_board g (flag (board g) xy), Broke (Py KeyError))
  ∧ xy ∈ flagged (board (gui_flag g xy).1)
  ∧ squares (gui_flag g xy).1 = squares g
  ∧ window_title (gui_flag g xy).1 = window_title g.
Proof.
  intros Hinit Hxy g.
  destruct (reachable_sound tk _ _ _ _ g0 cs Hinit) as (Hg & Hsame & _).
  fold g in Hg, Hsame.
  assert (gui_flag g xy = (set_board g (flag (board g) xy), Broke (Py KeyError)))
    as ->.
  { unfold gui_flag. apply refresh_missing. simpl.
    rewrite <-not_elem_of_dom, (gui_sound_squares _ Hg).
    rewrite (sound_xys _ (gui_sound_board _ Hg)).
    by rewrite (in_bounds_same _ _ _ Hsame). }
  split_and!; try done. simpl. apply elem_of_union. left.
  by apply elem_of_singleton.
Qed.

Lemma gui_flag_outside_keeps_flag_witness :
  let g := gui_run (fresh_gui plain_button board_3x3) [Open (0, 0)] in
  gui_flag g (3, 0)
  = (set_board g (flag (board g) (3, 0)), Broke (Py KeyError))
  ∧ (3, 0) ∈ flagged (board (gui_flag g (3, 0)).1)
  ∧ squares (gui_flag g (3, 0)).1 = squares g
  ∧ window_title (gui_flag g (3, 0)).1 = window_title g.
Proof.
  apply (gui_flag_outside_keeps_flag plain_button [(1, 1)] 3 3 fifth
           (fresh_gui plain_button board_3x3) [Open (0, 0)] (3, 0)).
  - exact gui_init_board_3x3.
  - unfold in_bounds. simpl. lia.
Defined.

(** X21.  On every board that [__init__] returns and after any calls, two
    right clicks on the same pair, a square of the board or not, leave the
    board as it was: the second click removes the flag that the first one
    set, or sets again the one it removed, and neither click touches an
    opened mine. *)
Theorem right_click_twice_board tape (cols rws : Z) d (b0 : MineSweeper)
    (cs : list call) (xy : coord) :
  init tape cols rws d = Some (Ok b0) →
  right_clicked (right_clicked (run b0 cs) xy) xy = run b0 cs.
Proof.
  intros Hb%init_sound. apply right_clicked_twice.
  apply sound_dead. by apply run_sound.
Qed.

Lemma right_click_twice_board_witness :
  right_clicked (right_clicked (run board_3x3 [Open (1, 1); Flag (0, 2)])
                   (0, 2)) (0, 2)
  = run board_3x3 [Open (1, 1); Flag (0, 2)].
Proof.
  apply (right_click_twice_board [(1, 1)] 3 3 fifth board_3x3
           [Open (1, 1); Flag (0, 2)] (0, 2)).
  exact init_board_3x3.
Defined.

(** X22.  In a window that [MineSweeperGUI.__init__] returned, after any
    calls, two right clicks on the same pair leave the whole window as it
    was: the board, every button with its text, colours and relief, and the
    title. *)
Theorem right_click_twice_window tk tape (cols rws : Z) d
    (g0 : MineSweeperGUI) (cs : list call) (xy : coord) :
  gui_init tk tape cols rws d = Some (Fine g0) →
  (gui_right_clicked (gui_right_clicked (gui_run g0 cs) xy).1 xy).1
  = gui_run g0 cs.
Proof.
  intros Hinit.
  destruct (reachable_sound tk _ _ _ _ g0 cs Hinit) as (Hg & Hsame & _).
  apply gui_right_clicked_twice; [done|]. intros Hxy.
  pose proof Hinit as (b & Hb & ->)%gui_init_Fine.
  apply gui_run_title; [by eapply fresh_gui_sound|].
  simpl. intros Hpos. rewrite decide_True; [done|]. split; [|done].
  pose proof Hsame as (_ & _ & HX & _). simpl in HX. rewrite HX in Hxy.
  intros Hnone. rewrite Hnone in Hxy. by apply not_elem_of_empty in Hxy.
Qed.

Lemma right_click_twice_window_witness :
  (gui_right_clicked
     (gui_right_clicked
        (gui_run (fresh_gui plain_button board_3x3) [Open (0, 0)])
        (2, 2)).1 (2, 2)).1
  = gui_run (fresh_gui plain_button board_3x3) [Open (0, 0)].
Proof.
  apply (right_click_twice_window plain_button [(1, 1)] 3 3 fifth).
  exact gui_init_board_3x3.
Defined.

(** X23.  In a window that [MineSweeperGUI.__init__] returned, after any
    calls, [refresh] of a square of the board changes nothing, since the
    button and the title are already what it would write; so [open] on a
    square of the board that is opened leaves the whole window as it was
    and raises nothing. *)
Theorem refresh_changes_nothing tk tape (cols rws : Z) d
    (g0 : MineSweeperGUI) (cs : list call) (xy : coord) :
  gui_init tk tape cols rws d = Some (Fine g0) →
  in_bounds (board g0) xy →
  let g := gui_run g0 cs in
  refresh g xy = (g, Fine ())
  ∧ (xy ∈ opened (board g) → gui_open g xy = (g, Fine ())).
Proof.
  intros Hinit Hxy g.
  destruct (reachable_sound tk _ _ _ _ g0 cs Hinit) as (Hg & Hsame & Hin).
  destruct (Hin xy Hxy) as [HX _]. subst g.
  assert (refresh (gui_run g0 cs) xy = (gui_run g0 cs, Fine ())) as Hidle.
  { apply refresh_idle; [done|done|].
    pose proof Hinit as (b & Hb & ->)%gui_init_Fine.
    apply gui_run_title; [by eapply fresh_gui_sound|].
    simpl. intros Hpos. rewrite decide_True; [done|]. split; [|done].
    pose proof Hsame as (_ & _ & HX' & _). simpl in HX'. rewrite HX' in HX.
    intros Hnone. rewrite Hnone in HX. by apply not_elem_of_empty in HX. }
  split; [done|]. intros Ho. unfold gui_open, open_dispatched.
  by rewrite decide_True.
Qed.

Lemma refresh_changes_nothing_witness :
  let g := gui_run (fresh_gui plain_button board_3x3) [Open (0, 0)] in
  refresh g (0, 0) = (g, Fine ())
  ∧ ((0, 0) ∈ opened (board g) → gui_open g (0, 0) = (g, Fine ())).
Proof.
  apply (refresh_changes_nothing plain_button [(1, 1)] 3 3 fifth
           (fresh_gui plain_button board_3x3) [Open (0, 0)] (0, 0)).
  - exact gui_init_board_3x3.
  - by vm_compute.
Defined.
